(** * kremlib/testlib.c: the test-support shim, embedded and verified

    The C functions of [kremlib/testlib.c] are embedded as computations of a
    small state-and-outcome monad over
    - a block memory (the heap of [malloc]/[free] and the caller's buffers),
    - an allocation oracle (whether the next [malloc] calls succeed),
    - the trace of [printf]/[fprintf] calls, and
    - the bytes that reads of indeterminate cells will yield.

    A computation ends in one of three ways: it returns, it terminates the
    process through [exit], or it runs into behaviour the C standard leaves
    undefined (a store through [NULL], an access outside a block, a signed
    overflow of [int]).

    Data model (LP64): [int] is 32 bits, [size_t] is 64 bits, a byte of
    memory is a [Byte.byte], freshly allocated bytes are indeterminate:
    reading one as a [uint8_t] is defined and yields an unspecified byte. The
    labels [txt] and [file], which the functions only hand to [printf], are
    passed as strings. *)

From Stdlib Require Import ZArith String Ascii List Lia.
From Stdlib Require Import Strings.Byte.
From stdpp Require Import gmap list fin_maps.

Local Open Scope Z_scope.

(** ** Machine integers *)

Definition INT_MAX : Z := 2 ^ 31 - 1.
Definition INT_MIN : Z := - 2 ^ 31.

(** [size_t] arithmetic wraps around modulo [2^64]. *)
Definition size_t (z : Z) : Z := z mod 2 ^ 64.

(** The value of [stdlib.h]'s [EXIT_FAILURE]. *)
Definition EXIT_FAILURE : Z := 1.

(** ** Memory *)

Definition block := positive.

Inductive ptr : Type :=
| Null
| Ptr (b : block) (off : Z).

Arguments Ptr b%_positive off%_Z.

(** A cell is [None] while its content is indeterminate. *)
Abbreviation cell := (option byte).
Abbreviation memory := (gmap positive (list (option byte))).

(** Pointer arithmetic [p + k]. *)
Definition ptr_add (p : ptr) (k : Z) : ptr :=
  match p with
  | Null => Null
  | Ptr b off => Ptr b (off + k)
  end.

Infix "+p" := ptr_add (at level 50, left associativity).

(** The byte [p] points to, when it is determined: none for [NULL],
    outside a live block, and in a cell that was never written. *)
Definition load (m : memory) (p : ptr) : option byte :=
  match p with
  | Null => None
  | Ptr b off =>
      if decide (0 <= off) then
        match m !! b with
        | Some l => match l !! Z.to_nat off with
                    | Some c => c
                    | None => None
                    end
        | None => None
        end
      else None
  end.

(** The cell [p] designates: [None] when [p] is [NULL] or points outside
    every live block. *)
Definition cell_at (m : memory) (p : ptr) : option cell :=
  match p with
  | Null => None
  | Ptr b off =>
      if decide (0 <= off) then
        match m !! b with
        | Some l => l !! Z.to_nat off
        | None => None
        end
      else None
  end.

(** [*p = v]. *)
Definition store (m : memory) (p : ptr) (v : byte) : option memory :=
  match p with
  | Null => None
  | Ptr b off =>
      if decide (0 <= off) then
        match m !! b with
        | Some l =>
            if decide (Z.to_nat off < length l)%nat
            then Some (<[b := <[Z.to_nat off := Some v]> l]> m)
            else None
        | None => None
        end
      else None
  end.

(** The [n] bytes of the buffer at [p]. *)
Fixpoint load_bytes (m : memory) (p : ptr) (n : nat) : option (list byte) :=
  match n with
  | O => Some []
  | S k =>
      match load m p, load_bytes m (p +p 1) k with
      | Some b, Some bs => Some (b :: bs)
      | _, _ => None
      end
  end.

(** The bytes of a cell list up to its first NUL. *)
Fixpoint cstr (cs : list cell) : option (list byte) :=
  match cs with
  | Some b :: r =>
      if Byte.eqb b x00 then Some []
      else match cstr r with
           | Some s => Some (b :: s)
           | None => None
           end
  | _ => None
  end.

(** The C string at [p], as [printf]'s [%s] reads it. *)
Definition load_string (m : memory) (p : ptr) : option string :=
  match p with
  | Null => None
  | Ptr b off =>
      if decide (0 <= off) then
        match m !! b with
        | Some l => string_of_list_byte <$> cstr (drop (Z.to_nat off) l)
        | None => None
        end
      else None
  end.

(** ** Console output *)

Inductive stream : Type := Stdout | Stderr.

(** Floating-point expressions are kept as written; they are not evaluated. *)
Inductive ftype : Type := Float | Double.

Inductive fexp : Type :=
| FofZ (t : ftype) (z : Z)
| FSub (a b : fexp)
| FDiv (a b : fexp).

Inductive parg : Type :=
| PStr (s : string)
| PInt (z : Z)
| PUInt (z : Z)
| PFloat (e : fexp).

(** One call of [printf] or [fprintf]: the stream, the format as the source
    spells it, and the arguments ([%s] arguments by their content). *)
Record event : Type := Printf {
  ev_stream : stream;
  ev_fmt : string;
  ev_args : list parg
}.

(** ** Program state, outcomes and the monad *)

Record state : Type := State {
  mem : memory;
  oracle : list bool;   (* outcome of the next calls of malloc; [] grants *)
  out : list event;
  junk : list byte      (* what the next reads of indeterminate cells yield *)
}.

Inductive outcome (A : Type) : Type :=
| Return (a : A)
| Exit (code : Z)
| Undefined.

Arguments Return {A} a.
Arguments Exit {A} code.
Arguments Undefined {A}.

Definition M (A : Type) : Type := state -> outcome A * state.

Definition ret {A} (a : A) : M A := fun st => (Return a, st).

Definition bind {A B} (c : M A) (k : A -> M B) : M B :=
  fun st =>
    match c st with
    | (Return a, st') => k a st'
    | (Exit code, st') => (Exit code, st')
    | (Undefined, st') => (Undefined, st')
    end.

Notation "'let*' x ':=' c 'in' k" := (bind c (fun x => k))
  (at level 10, x name, c at level 100, k at level 200).
Notation "c ';;' k" := (bind c (fun _ => k))
  (at level 100, k at level 200, right associativity).

Definition undefined {A} : M A := fun st => (Undefined, st).

Definition exit {A} (code : Z) : M A := fun st => (Exit code, st).

Definition set_mem (m : memory) (st : state) : state :=
  State m (oracle st) (out st) (junk st).

Definition printf_to (s : stream) (fmt : string) (args : list parg) : M unit :=
  fun st => (Return tt, State (mem st) (oracle st) (out st ++ [Printf s fmt args]) (junk st)).

Definition printf := printf_to Stdout.
Definition fprintf (s : stream) := printf_to s.

(** An [int] result; overflow is undefined. *)
Definition int_val (z : Z) : M Z :=
  if decide (INT_MIN <= z <= INT_MAX) then ret z else undefined.

(** [*p] for a [uint8_t *p]: the byte of the cell; an unspecified byte,
    taken from [junk], when the cell was never written; undefined outside a
    live block. *)
Definition load_u8 (p : ptr) : M byte :=
  fun st =>
    match cell_at (mem st) p with
    | Some (Some v) => (Return v, st)
    | Some None =>
        (Return (hd x00 (junk st)),
         State (mem st) (oracle st) (out st) (tail (junk st)))
    | None => (Undefined, st)
    end.

Definition store_char (p : ptr) (v : byte) : M unit :=
  fun st =>
    match store (mem st) p v with
    | Some m' => (Return tt, set_mem m' st)
    | None => (Undefined, st)
    end.

Definition read_string (p : ptr) : M string :=
  fun st =>
    match load_string (mem st) p with
    | Some s => (Return s, st)
    | None => (Undefined, st)
    end.

(** [malloc(n)]: [NULL] when the oracle says so, else a fresh block of [n]
    indeterminate bytes. *)
Definition malloc (n : Z) : M ptr :=
  fun st =>
    match oracle st with
    | false :: o => (Return Null, State (mem st) o (out st) (junk st))
    | o =>
        let b := fresh (dom (mem st)) in
        (Return (Ptr b 0),
         State (<[b := replicate (Z.to_nat n) None]> (mem st)) (tail o) (out st) (junk st))
    end.

(** [free(p)]: a no-op on [NULL]; undefined unless [p] is the start of a
    live block. *)
Definition free (p : ptr) : M unit :=
  fun st =>
    match p with
    | Null => (Return tt, st)
    | Ptr b off =>
        if decide (off = 0) then
          match mem st !! b with
          | Some _ => (Return tt, set_mem (delete b (mem st)) st)
          | None => (Undefined, st)
          end
        else (Undefined, st)
    end.

(** [for (int i = i0; i < i0 + n; ++i) body(i)], by its trip count. *)
Fixpoint for_int (n : nat) (i : Z) (body : Z -> M unit) : M unit :=
  match n with
  | O => ret tt
  | S k => body i ;; let* i' := int_val (i + 1) in for_int k i' body
  end.

(** ** [sprintf(p, "%02x", v)] *)

Definition hex_digits : list byte :=
  [x30; x31; x32; x33; x34; x35; x36; x37; x38; x39;
   x61; x62; x63; x64; x65; x66].

Definition hex_digit (d : N) : byte := nth (N.to_nat d) hex_digits x30.

(** The two characters [%02x] prints for a value below 256. *)
Definition fmt_02x (v : byte) : list byte :=
  [hex_digit (Byte.to_N v / 16); hex_digit (Byte.to_N v mod 16)].

Definition sprintf_02x (p : ptr) (v : byte) : M unit :=
  store_char p (hex_digit (Byte.to_N v / 16)) ;;
  store_char (p +p 1) (hex_digit (Byte.to_N v mod 16)) ;;
  store_char (p +p 2) x00.

(** ** The functions of testlib.c *)

Definition print_buf (buf : ptr) (size : Z) (file : string) (line : Z) : M unit :=
  let* str := malloc (size_t (2 * size + 1)) in
  for_int (Z.to_nat size) 0 (fun i =>
    let* o := int_val (2 * i) in
    let* v := load_u8 (buf +p i) in
    sprintf_02x (str +p o) v) ;;
  store_char (str +p size_t (2 * size)) x00 ;;
  let* s := read_string str in
  printf "%s:%d: %s\n" [PStr file; PInt line; PStr s].

Definition TestLib_compare_and_print
    (txt : string) (reference output : ptr) (size : Z) : M unit :=
  let* n2 := int_val (2 * size) in
  let* n := int_val (n2 + 1) in
  let* str := malloc (size_t n) in
  let* r2 := int_val (2 * size) in
  let* r := int_val (r2 + 1) in
  let* str_ref := malloc (size_t r) in
  for_int (Z.to_nat size) 0 (fun i =>
    (let* o := int_val (2 * i) in
     let* v := load_u8 (output +p i) in
     sprintf_02x (str +p o) v) ;;
    (let* o := int_val (2 * i) in
     let* v := load_u8 (reference +p i) in
     sprintf_02x (str_ref +p o) v)) ;;
  (let* e := int_val (2 * size) in store_char (str +p e) x00) ;;
  (let* e := int_val (2 * size) in store_char (str_ref +p e) x00) ;;
  (let* s := read_string str_ref in
   printf "[test] expected output %s is %s\n" [PStr txt; PStr s]) ;;
  (let* s := read_string str in
   printf "[test] computed output %s is %s\n" [PStr txt; PStr s]) ;;
  for_int (Z.to_nat size) 0 (fun i =>
    let* o := load_u8 (output +p i) in
    let* r := load_u8 (reference +p i) in
    if negb (Byte.eqb o r) then
      fprintf Stderr "[test] reference %s and expected %s differ at byte %d\n"
        [PStr txt; PStr txt; PInt i] ;;
      exit EXIT_FAILURE
    else ret tt) ;;
  printf "[test] %s is a success\n" [PStr txt] ;;
  free str ;;
  free str_ref.

Definition TestLib_touch (x : Z) : M unit := ret tt.

(** [MK_CHECK(n)] and [MK_UCHECK(n)] are instantiated at four widths. *)
Inductive width : Type := W8 | W16 | W32 | W64.

(** The conversion macros of [inttypes.h], as glibc defines them on LP64. *)
Definition PRId (w : width) : string :=
  match w with W64 => "ld" | _ => "d" end.
Definition PRIu (w : width) : string :=
  match w with W64 => "lu" | _ => "u" end.

(** [TestLib_check##n (int##n##_t x, int##n##_t y)]. *)
Definition TestLib_check (w : width) (x y : Z) : M unit :=
  if negb (x =? y) then
    printf ("Test check failure: %" ++ PRId w ++ " != %" ++ PRId w ++ "\n")
      [PInt x; PInt y] ;;
    exit 253
  else ret tt.

(** [TestLib_checku##n (uint##n##_t x, uint##n##_t y)]. *)
Definition TestLib_checku (w : width) (x y : Z) : M unit :=
  if negb (x =? y) then
    printf ("Test check failure: %" ++ PRIu w ++ " != %" ++ PRIu w ++ "\n")
      [PUInt x; PUInt y] ;;
    exit 253
  else ret tt.

Definition TestLib_unsafe_malloc (size : Z) : M ptr :=
  let* memblob := malloc size in
  match memblob with
  | Null => printf " WARNING : malloc failed in tests !\n" [] ;; exit EXIT_FAILURE
  | _ => ret memblob
  end.

(** [time.h]'s [CLOCKS_PER_SEC], the value POSIX requires. *)
Definition CLOCKS_PER_SEC : Z := 1000000.

Definition TestLib_print_clock_diff (t1 t2 : Z) : M unit :=
  printf "User time: %f\n"
    [PFloat (FDiv (FSub (FofZ Double t2) (FofZ Double t1))
                  (FofZ Double CLOCKS_PER_SEC))].

Definition TestLib_perr (err_code : Z) : M unit :=
  printf "Got error code %u.\n" [PUInt err_code].

(** [TestLib_cycles] (declared in testlib.h) is a 64-bit unsigned counter;
    [%d] reads the [uint32_t] argument as an [int]. *)
Definition TestLib_print_cycles_per_round (c1 c2 rounds : Z) : M unit :=
  printf "[perf] cpu cycles per round (averaged over %d) is %f\n"
    [PInt (if decide (rounds <= INT_MAX) then rounds else rounds - 2 ^ 32);
     PFloat (FDiv (FofZ Float ((c2 - c1) mod 2 ^ 64)) (FofZ Float rounds))].

(** * Vocabulary of the proofs and of the claims *)

(** ** Weakest preconditions *)

(** [wp c Q X U st]: run from [st], [c] either returns [a] in a state with
    [Q a], or exits with [code] in a state with [X code], or is undefined in
    a state with [U]. *)
Definition wp {A} (c : M A) (Q : A -> state -> Prop) (X : Z -> state -> Prop)
    (U : state -> Prop) (st : state) : Prop :=
  match c st with
  | (Return a, st') => Q a st'
  | (Exit code, st') => X code st'
  | (Undefined, st') => U st'
  end.

(** [keeps I c]: [c] preserves [I], however it ends. *)
Definition keeps {A} (I : state -> Prop) (c : M A) : Prop :=
  forall st, I st -> wp c (fun _ => I) (fun _ => I) I st.

(** ** Hex rendering *)

(** The characters the loops of [print_buf] and [TestLib_compare_and_print]
    write for a buffer, one [%02x] per byte. *)
Definition hexs (bs : list byte) : list byte := concat (map fmt_02x bs).

(** The value of a lowercase hexadecimal character. *)
Definition hex_val (c : ascii) : option N :=
  let n := N_of_ascii c in
  if ((48 <=? n) && (n <=? 57))%N then Some (n - 48)%N
  else if ((97 <=? n) && (n <=? 102))%N then Some (n - 87)%N
  else None.

(** What it means for [s] to be the hex rendering of [bs]: two characters
    per byte, the lowercase digits of its value, high digit first. *)
Definition hex_rendering (bs : list byte) (s : string) : Prop :=
  String.length s = (2 * length bs)%nat /\
  forall (i : nat) v, bs !! i = Some v ->
    exists c1 c2 h l,
      String.get (2 * i) s = Some c1 /\ String.get (2 * i + 1) s = Some c2 /\
      hex_val c1 = Some h /\ hex_val c2 = Some l /\
      (16 * h + l)%N = Byte.to_N v.

(** ** The lines printed *)

Definition print_buf_event (file : string) (line : Z) (bs : list byte) : event :=
  Printf Stdout "%s:%d: %s\n"
    [PStr file; PInt line; PStr (string_of_list_byte (hexs bs))].

Definition expected_event (txt : string) (ref : list byte) : event :=
  Printf Stdout "[test] expected output %s is %s\n"
    [PStr txt; PStr (string_of_list_byte (hexs ref))].

Definition computed_event (txt : string) (outp : list byte) : event :=
  Printf Stdout "[test] computed output %s is %s\n"
    [PStr txt; PStr (string_of_list_byte (hexs outp))].

Definition mismatch_event (txt : string) (i : Z) : event :=
  Printf Stderr "[test] reference %s and expected %s differ at byte %d\n"
    [PStr txt; PStr txt; PInt i].

Definition success_event (txt : string) : event :=
  Printf Stdout "[test] %s is a success\n" [PStr txt].

(** The cycles-per-round quotient over the integer difference [c2 - c1],
    without the wrap-around of the counter type. *)
Definition plain_cycles_per_round (c1 c2 rounds : Z) : fexp :=
  FDiv (FofZ Float (c2 - c1)) (FofZ Float rounds).

(** [i] is the least index at which [a] and [b] differ. *)
Definition first_diff (a b : list byte) (i : nat) : Prop :=
  (exists x y, a !! i = Some x /\ b !! i = Some y /\ x <> y) /\
  take i a = take i b.

(** ** Memory obtained from [malloc] *)

(** The memory [m] without the block of [p]. *)
Definition del (p : ptr) (m : memory) : memory :=
  match p with
  | Null => m
  | Ptr b _ => delete b m
  end.

(** [owned m0 p1 p2 s]: the memory of [s] is [m0] plus the blocks of the
    pointers [p1] and [p2] the call obtained from [malloc]. *)
Definition owned (m0 : memory) (p1 p2 : ptr) (s : state) : Prop :=
  del p1 (del p2 (mem s)) = m0.

(** [c] has released, by the time it returns, all it allocated. *)
Definition restores_memory {A} (c : M A) : Prop :=
  forall st a st', c st = (Return a, st') -> mem st' = mem st.

(** [p] points to [n] bytes of live storage, written or not. *)
Definition allocated (m : memory) (p : ptr) (n : Z) : Prop :=
  forall k, 0 <= k < n -> is_Some (cell_at m (p +p k)).

(** ** Concrete inputs *)

(** Concrete inputs used by the examples below: two equal two-byte buffers
    and one that differs from them in its second byte. *)
Definition demo_mem : memory :=
  <[5%positive := [Some x01; Some xab]]>
    (<[6%positive := [Some x01; Some xab]]>
       (<[7%positive := [Some x01; Some xac]]> ∅)).

Definition demo_state : state := State demo_mem [] [] [].

(** The same memory, with an allocator that refuses the next request. *)
Definition demo_state_oom : state := State demo_mem [false] [] [].

(** A buffer of [2^30] zero bytes. *)
Definition huge : nat := Z.to_nat (2 ^ 30).
Definition huge_mem : memory := <[5%positive := replicate huge (Some x00)]> ∅.
Definition huge_state : state := State huge_mem [] [] [].

(** A two-byte buffer whose first byte was never written. *)
Definition raw_mem : memory := <[5%positive := [None; Some xab]]> ∅.
Definition raw_state : state := State raw_mem [] [] [xff].

(** Two buffers of [2^30] bytes that differ in every byte. *)
Definition huge_pair_mem : memory :=
  <[5%positive := replicate huge (Some x00)]>
    (<[6%positive := replicate huge (Some x01)]> ∅).
Definition huge_pair_state : state := State huge_pair_mem [] [] [].

(** * Proof rules and facts about the model *)

Section wp_rules.
Context {A B : Type}.
Implicit Types (X : Z -> state -> Prop) (U : state -> Prop).

Lemma wp_ret (a : A) (Q : A -> state -> Prop) X U st :
  Q a st -> wp (ret a) Q X U st.
Proof. intros H. exact H. Qed.

Lemma wp_bind (c : M A) (k : A -> M B) (Q : B -> state -> Prop) X U st :
  wp c (fun a => wp (k a) Q X U) X U st -> wp (bind c k) Q X U st.
Proof.
  unfold wp, bind. destruct (c st) as [[a|code|] st']; intros H; exact H.
Qed.

Lemma wp_mono (c : M A) (Q Q' : A -> state -> Prop) X X' U U' st :
  wp c Q X U st ->
  (forall a s, Q a s -> Q' a s) ->
  (forall code s, X code s -> X' code s) ->
  (forall s, U s -> U' s) ->
  wp c Q' X' U' st.
Proof.
  unfold wp. destruct (c st) as [[a|code|] st']; intros H HQ HX HU; auto.
Qed.

Lemma wp_undefined (Q : A -> state -> Prop) X U st :
  U st -> wp undefined Q X U st.
Proof. intros H. exact H. Qed.

Lemma wp_exit code (Q : A -> state -> Prop) X U st :
  X code st -> wp (exit code) Q X U st.
Proof. intros H. exact H. Qed.
End wp_rules.

Section wp_primitives.
Implicit Types (X : Z -> state -> Prop) (U : state -> Prop).

Lemma wp_printf_to s fmt args (Q : unit -> state -> Prop) X U st :
  Q tt (State (mem st) (oracle st) (out st ++ [Printf s fmt args]) (junk st)) ->
  wp (printf_to s fmt args) Q X U st.
Proof. intros H. exact H. Qed.

Lemma wp_int_val z (Q : Z -> state -> Prop) X U st :
  (INT_MIN <= z <= INT_MAX -> Q z st) ->
  (~ INT_MIN <= z <= INT_MAX -> U st) ->
  wp (int_val z) Q X U st.
Proof.
  intros HQ HU. unfold int_val. case_decide; [apply HQ | apply HU]; assumption.
Qed.

(** A read leaves the memory, the allocator and the output as they are. *)
Lemma wp_load_u8 p (Q : byte -> state -> Prop) X U st :
  (forall v st', mem st' = mem st -> oracle st' = oracle st ->
                 out st' = out st -> Q v st') ->
  U st ->
  wp (load_u8 p) Q X U st.
Proof.
  intros HQ HU. unfold wp, load_u8.
  destruct (cell_at (mem st) p) as [[v|]|]; [apply HQ .. | apply HU];
    reflexivity.
Qed.

Lemma wp_store_char p v (Q : unit -> state -> Prop) X U st :
  (forall m', store (mem st) p v = Some m' -> Q tt (set_mem m' st)) ->
  (store (mem st) p v = None -> U st) ->
  wp (store_char p v) Q X U st.
Proof.
  intros HQ HU. unfold wp, store_char.
  destruct (store (mem st) p v) as [m'|]; [apply HQ | apply HU]; reflexivity.
Qed.

Lemma wp_read_string p (Q : string -> state -> Prop) X U st :
  (forall s, load_string (mem st) p = Some s -> Q s st) ->
  (load_string (mem st) p = None -> U st) ->
  wp (read_string p) Q X U st.
Proof.
  intros HQ HU. unfold wp, read_string.
  destruct (load_string (mem st) p) as [s|]; [apply HQ | apply HU]; reflexivity.
Qed.

Lemma wp_malloc n (Q : ptr -> state -> Prop) X U st :
  (hd true (oracle st) = false ->
   Q Null (State (mem st) (tail (oracle st)) (out st) (junk st))) ->
  (hd true (oracle st) = true ->
   Q (Ptr (fresh (dom (mem st))) 0)
     (State (<[fresh (dom (mem st)) := replicate (Z.to_nat n) None]> (mem st))
            (tail (oracle st)) (out st) (junk st))) ->
  wp (malloc n) Q X U st.
Proof.
  intros HN HP. unfold wp, malloc.
  destruct (oracle st) as [|[|] o]; simpl in *; auto.
Qed.

Lemma wp_free p (Q : unit -> state -> Prop) X U st :
  (p = Null -> Q tt st) ->
  (forall b l, p = Ptr b 0 -> mem st !! b = Some l ->
               Q tt (set_mem (delete b (mem st)) st)) ->
  ((forall b l, p = Ptr b 0 -> mem st !! b = Some l -> False) ->
   p <> Null -> U st) ->
  wp (free p) Q X U st.
Proof.
  intros HN HP HU. unfold wp, free.
  destruct p as [|b off]; [auto|].
  case_decide as Hoff.
  - subst off. destruct (mem st !! b) as [l|] eqn:E.
    + eapply HP; eauto.
    + apply HU; [|discriminate]. intros b' l' [= <-] E'. congruence.
  - apply HU; [|discriminate]. intros b' l' [= <- ->]. congruence.
Qed.

(** The loop rule: [I j] holds before iteration [j]. *)
Lemma wp_for_int (I : Z -> state -> Prop) body
    (Q : unit -> state -> Prop) X U n :
  forall i st,
    I i st ->
    (forall j s, i <= j < i + Z.of_nat n -> I j s ->
                 wp (body j) (fun _ => I (j + 1)) X U s) ->
    (forall j s, i < j <= i + Z.of_nat n -> I j s ->
                 ~ INT_MIN <= j <= INT_MAX -> U s) ->
    (forall s, I (i + Z.of_nat n) s -> Q tt s) ->
    wp (for_int n i body) Q X U st.
Proof.
  induction n as [|n IH]; intros i st HI Hbody Hov HQ.
  - apply wp_ret. apply HQ. replace (i + Z.of_nat 0) with i by lia. exact HI.
  - cbn [for_int]. apply wp_bind.
    eapply wp_mono; [apply (Hbody i st); [lia | exact HI] | | auto | auto].
    intros [] s Hs. cbv beta in Hs. apply wp_bind. apply wp_int_val.
    + intros _. apply (IH (i + 1) s).
      * exact Hs.
      * intros j s' Hj Hj'. apply Hbody; [lia | exact Hj'].
      * intros j s' Hj Hj' Hr. apply (Hov j s'); [lia | exact Hj' | exact Hr].
      * intros s' Hs'. apply HQ.
        replace (i + Z.of_nat (S n)) with (i + 1 + Z.of_nat n) by lia. exact Hs'.
    + intros Hr. apply (Hov (i + 1) s); [lia | exact Hs | exact Hr].
Qed.
End wp_primitives.

Ltac state_simpl := cbv beta; unfold set_mem; cbn [mem oracle out junk].

(** ** Facts about the memory operations *)

Lemma ptr_add_0 p : p +p 0 = p.
Proof. destruct p as [|b off]; [reflexivity|]. simpl. f_equal. lia. Qed.

Lemma ptr_add_add p i j : p +p i +p j = p +p (i + j).
Proof. destruct p as [|b off]; [reflexivity|]. simpl. f_equal. lia. Qed.

(** Loads only depend on the block they read. *)
Lemma load_mono (m m' : memory) p v :
  m ⊆ m' -> load m p = Some v -> load m' p = Some v.
Proof.
  intros Hsub. destruct p as [|b off]; [discriminate|]. unfold load.
  case_decide; [|discriminate].
  destruct (m !! b) as [l|] eqn:E; [|discriminate].
  rewrite (lookup_weaken _ _ _ _ E Hsub). auto.
Qed.

Lemma load_bytes_length (m : memory) n : forall p bs,
  load_bytes m p n = Some bs -> length bs = n.
Proof.
  induction n as [|n IH]; intros p bs; cbn [load_bytes].
  - intros [= <-]. reflexivity.
  - destruct (load m p) as [v|]; [|discriminate].
    destruct (load_bytes m (p +p 1) n) as [r|] eqn:E; [|discriminate].
    intros [= <-]. cbn. f_equal. eapply IH, E.
Qed.

Lemma load_bytes_lookup (m : memory) n : forall p bs (i : nat) v,
  load_bytes m p n = Some bs -> bs !! i = Some v ->
  load m (p +p Z.of_nat i) = Some v.
Proof.
  induction n as [|n IH]; intros p bs i v; cbn [load_bytes].
  - intros [= <-]. discriminate.
  - destruct (load m p) as [v0|] eqn:E0; [|discriminate].
    destruct (load_bytes m (p +p 1) n) as [r|] eqn:E; [|discriminate].
    intros [= <-]. destruct i as [|i]; cbn.
    + intros [= <-]. rewrite ptr_add_0. exact E0.
    + intros Hi. rewrite <- (IH _ _ _ _ E Hi), ptr_add_add. do 2 f_equal. lia.
Qed.

Lemma load_bytes_mono (m m' : memory) n : forall p bs,
  m ⊆ m' -> load_bytes m p n = Some bs -> load_bytes m' p n = Some bs.
Proof.
  induction n as [|n IH]; intros p bs Hsub; cbn [load_bytes]; [auto|].
  destruct (load m p) as [v0|] eqn:E0; [|discriminate].
  destruct (load_bytes m (p +p 1) n) as [r|] eqn:E; [|discriminate].
  intros [= <-]. rewrite (load_mono _ _ _ _ Hsub E0), (IH _ _ Hsub E). reflexivity.
Qed.

(** A store changes one cell of one live block. *)
Lemma store_Some (m m' : memory) p v :
  store m p v = Some m' ->
  exists b off l, p = Ptr b off /\ 0 <= off /\ m !! b = Some l /\
    (Z.to_nat off < length l)%nat /\
    m' = <[b := <[Z.to_nat off := Some v]> l]> m.
Proof.
  destruct p as [|b off]; [discriminate|]. unfold store.
  case_decide; [|discriminate].
  destruct (m !! b) as [l|] eqn:E; [|discriminate].
  case_decide; [|discriminate]. intros [= <-].
  exists b, off, l. auto.
Qed.

Lemma store_at (m : memory) b (pre : list cell) c tl v :
  m !! b = Some (pre ++ c :: tl) ->
  store m (Ptr b (Z.of_nat (length pre))) v
  = Some (<[b := pre ++ Some v :: tl]> m).
Proof.
  intros E. unfold store. rewrite decide_True by lia. rewrite E, Nat2Z.id.
  rewrite decide_True by (rewrite length_app; cbn; lia).
  do 2 f_equal. rewrite insert_app_r_alt by lia.
  replace (length pre - length pre)%nat with O by lia. reflexivity.
Qed.

(** ** Total rules, for steps known to succeed *)

Section wp_total.
Implicit Types (X : Z -> state -> Prop) (U : state -> Prop).

Lemma wp_int_val_ok z (Q : Z -> state -> Prop) X U st :
  INT_MIN <= z <= INT_MAX -> Q z st -> wp (int_val z) Q X U st.
Proof. intros Hr HQ. apply wp_int_val; [auto | intros Hn; contradiction]. Qed.

Lemma load_cell_at m p v : load m p = Some v -> cell_at m p = Some (Some v).
Proof.
  destruct p as [|b off]; cbn; [discriminate|].
  case_decide; [|discriminate].
  destruct (m !! b) as [l|]; [|discriminate].
  destruct (l !! Z.to_nat off) as [c|]; [|discriminate].
  intros ->. reflexivity.
Qed.

Lemma wp_load_u8_ok p v (Q : byte -> state -> Prop) X U st :
  load (mem st) p = Some v -> Q v st -> wp (load_u8 p) Q X U st.
Proof.
  intros E HQ. unfold wp, load_u8. rewrite (load_cell_at _ _ _ E). exact HQ.
Qed.

Lemma wp_store_char_ok p v m' (Q : unit -> state -> Prop) X U st :
  store (mem st) p v = Some m' -> Q tt (set_mem m' st) ->
  wp (store_char p v) Q X U st.
Proof. intros E HQ. unfold wp, store_char. rewrite E. exact HQ. Qed.

Lemma wp_read_string_ok p s (Q : string -> state -> Prop) X U st :
  load_string (mem st) p = Some s -> Q s st -> wp (read_string p) Q X U st.
Proof. intros E HQ. unfold wp, read_string. rewrite E. exact HQ. Qed.

Lemma wp_malloc_ok n b (Q : ptr -> state -> Prop) X U st :
  hd true (oracle st) = true ->
  b = fresh (dom (mem st)) ->
  Q (Ptr b 0)
    (State (<[b := replicate (Z.to_nat n) None]> (mem st))
           (tail (oracle st)) (out st) (junk st)) ->
  wp (malloc n) Q X U st.
Proof. intros Ho -> HQ. apply wp_malloc; [congruence | auto]. Qed.

Lemma wp_free_ok b l (Q : unit -> state -> Prop) X U st :
  mem st !! b = Some l -> Q tt (set_mem (delete b (mem st)) st) ->
  wp (free (Ptr b 0)) Q X U st.
Proof.
  intros E HQ. unfold wp, free. rewrite decide_True by reflexivity.
  rewrite E. exact HQ.
Qed.

(** [sprintf] overwrites three cells: two digits and the terminating NUL. *)
Lemma wp_sprintf_02x_ok b off (pre : list cell) c0 c1 c2 tl v
    (Q : unit -> state -> Prop) X U st :
  mem st !! b = Some (pre ++ c0 :: c1 :: c2 :: tl) ->
  off = Z.of_nat (length pre) ->
  Q tt (set_mem (<[b := pre ++ map Some (fmt_02x v) ++ Some x00 :: tl]> (mem st)) st) ->
  wp (sprintf_02x (Ptr b off) v) Q X U st.
Proof.
  intros E -> HQ. unfold sprintf_02x.
  apply wp_bind. eapply wp_store_char_ok; [eapply store_at, E|].
  apply wp_bind. eapply wp_store_char_ok.
  { cbn [ptr_add set_mem mem].
    replace (Z.of_nat (length pre) + 1) with (Z.of_nat (length (pre ++ [Some (hex_digit (Byte.to_N v / 16))])))
      by (rewrite length_app; cbn; lia).
    eapply store_at. rewrite lookup_insert_eq, <- app_assoc. reflexivity. }
  eapply wp_store_char_ok.
  { cbn [ptr_add set_mem mem].
    replace (Z.of_nat (length pre) + 2)
      with (Z.of_nat (length ((pre ++ [Some (hex_digit (Byte.to_N v / 16))])
                                ++ [Some (hex_digit (Byte.to_N v mod 16))])))
      by (rewrite !length_app; cbn; lia).
    apply (store_at _ _ _ c2 tl). rewrite lookup_insert_eq, <- !app_assoc.
    reflexivity. }
  cbn [set_mem mem oracle out] in *. rewrite !insert_insert_eq.
  rewrite <- !app_assoc. exact HQ.
Qed.
End wp_total.

(** ** Facts about hex rendering *)

Lemma hexs_snoc bs v : hexs (bs ++ [v]) = hexs bs ++ fmt_02x v.
Proof. unfold hexs. rewrite map_app, concat_app. reflexivity. Qed.

Lemma hexs_length bs : length (hexs bs) = (2 * length bs)%nat.
Proof. induction bs as [|v bs IH]; cbn; [reflexivity|]. unfold hexs in IH. lia. Qed.

Lemma fmt_02x_nonzero v : Forall (fun c => c <> x00) (fmt_02x v).
Proof. destruct v; repeat constructor; discriminate. Qed.

Lemma hexs_nonzero bs : Forall (fun c => c <> x00) (hexs bs).
Proof.
  induction bs as [|v bs IH]; [constructor|].
  change (hexs (v :: bs)) with (fmt_02x v ++ hexs bs).
  apply Forall_app. split; [apply fmt_02x_nonzero | exact IH].
Qed.

(** [%02x] is the zero-padded two-digit lowercase encoding. *)
Lemma fmt_02x_decode v :
  exists h l,
    map (fun c => hex_val (ascii_of_byte c)) (fmt_02x v) = [Some h; Some l] /\
    (16 * h + l)%N = Byte.to_N v.
Proof.
  exists (Byte.to_N v / 16)%N, (Byte.to_N v mod 16)%N.
  destruct v; split; reflexivity.
Qed.

Lemma cstr_terminated (hs : list byte) (tl : list cell) :
  Forall (fun c => c <> x00) hs ->
  cstr (map Some hs ++ Some x00 :: tl) = Some hs.
Proof.
  induction 1 as [|c hs Hc _ IH]; cbn; [reflexivity|].
  destruct (Byte.eqb c x00) eqn:E; [apply Byte.byte_dec_bl in E; contradiction|].
  rewrite IH. reflexivity.
Qed.

Lemma string_get_of_bytes (l : list byte) : forall n : nat,
  String.get n (string_of_list_byte l) = ascii_of_byte <$> l !! n.
Proof.
  induction l as [|c l IH]; intros [|n]; cbn; auto.
Qed.

Lemma string_length_of_bytes (l : list byte) :
  String.length (string_of_list_byte l) = length l.
Proof. induction l as [|c l IH]; cbn; [reflexivity|]. f_equal. exact IH. Qed.

Lemma hexs_lookup bs : forall (i : nat) v,
  bs !! i = Some v ->
  hexs bs !! (2 * i)%nat = fmt_02x v !! 0%nat /\
  hexs bs !! (2 * i + 1)%nat = fmt_02x v !! 1%nat.
Proof.
  induction bs as [|w bs IH]; intros [|i] v; cbn; try discriminate.
  - intros [= <-]. split; reflexivity.
  - intros Hi. replace (i + S (i + 0))%nat with (S (2 * i)) by lia.
    replace (i + S (i + 0) + 1)%nat with (S (2 * i + 1)) by lia.
    cbn. apply IH, Hi.
Qed.

Lemma hexs_rendering bs : hex_rendering bs (string_of_list_byte (hexs bs)).
Proof.
  split.
  - rewrite string_length_of_bytes. apply hexs_length.
  - intros i v Hi. destruct (hexs_lookup _ _ _ Hi) as [H0 H1].
    destruct (fmt_02x_decode v) as (h & l & Hd & Hv).
    exists (ascii_of_byte (hex_digit (Byte.to_N v / 16))),
           (ascii_of_byte (hex_digit (Byte.to_N v mod 16))), h, l.
    rewrite !string_get_of_bytes, H0, H1. cbn in Hd |- *.
    injection Hd as -> ->. auto.
Qed.

(** ** [print_buf], when its allocation succeeds *)

Lemma size_t_small z : 0 <= z < 2 ^ 64 -> size_t z = z.
Proof. intros H. unfold size_t. apply Z.mod_small, H. Qed.

Lemma fresh_block_None (m : memory) : m !! fresh (dom m) = None.
Proof. apply not_elem_of_dom, is_fresh. Qed.

Lemma insert_fresh_subseteq (m : memory) l : m ⊆ <[fresh (dom m) := l]> m.
Proof. apply insert_subseteq, fresh_block_None. Qed.

Lemma print_buf_wp buf size file line bs st :
  0 <= size <= 2 ^ 30 ->
  load_bytes (mem st) buf (Z.to_nat size) = Some bs ->
  hd true (oracle st) = true ->
  wp (print_buf buf size file line)
     (fun _ st' =>
        st' = State (<[fresh (dom (mem st)) := map Some (hexs bs ++ [x00])]> (mem st))
                    (tail (oracle st))
                    (out st ++ [print_buf_event file line bs]) (junk st))
     (fun _ _ => False) (fun _ => False) st.
Proof.
  intros Hsz Hbs Ho. unfold print_buf.
  pose proof (load_bytes_length _ _ _ _ Hbs) as Hlen.
  destruct st as [m0 o out0 jk0]. cbn [mem oracle out junk] in *.
  remember (fresh (dom m0)) as b eqn:Eb.
  assert (Hb : m0 !! b = None) by (subst b; apply fresh_block_None).
  apply wp_bind, (wp_malloc_ok _ b); [exact Ho | exact Eb |]. state_simpl.
  apply wp_bind.
  apply (wp_for_int (fun j s =>
    exists tl, s = State (<[b := map Some (hexs (take (Z.to_nat j) bs)) ++ tl]> m0)
                         (tail o) out0 jk0 /\
               length tl = (2 * (length bs - Z.to_nat j) + 1)%nat)).
  - exists (replicate (Z.to_nat (size_t (2 * size + 1))) None). split.
    + reflexivity.
    + rewrite length_replicate, size_t_small by lia. lia.
  - intros j s Hj (tl & -> & Htl).
    apply wp_bind, wp_int_val_ok; [unfold INT_MIN, INT_MAX; lia|].
    destruct (lookup_lt_is_Some_2 bs (Z.to_nat j)) as [v Hv]; [lia|].
    apply wp_bind, (wp_load_u8_ok _ v).
    { state_simpl. eapply load_mono; [apply insert_subseteq, Hb|].
      rewrite <- (Z2Nat.id j) by lia. eapply load_bytes_lookup; eauto. }
    destruct tl as [|c0 [|c1 [|c2 tl]]]; cbn [length] in Htl; try lia.
    eapply wp_sprintf_02x_ok.
    + state_simpl. rewrite lookup_insert_eq. reflexivity.
    + rewrite length_map, hexs_length, length_take. lia.
    + state_simpl. rewrite insert_insert_eq.
      exists (Some x00 :: tl). split.
      * f_equal. f_equal.
        replace (Z.to_nat (j + 1)) with (S (Z.to_nat j)) by lia.
        rewrite (take_S_r _ _ _ Hv), hexs_snoc, map_app, <- app_assoc.
        reflexivity.
      * cbn [length]. lia.
  - intros j s Hj _ Hr. unfold INT_MIN, INT_MAX in Hr. lia.
  - intros s (tl & -> & Htl).
    rewrite Z.add_0_l, Nat2Z.id, Hlen, take_ge in * by lia.
    destruct tl as [|c [|? ?]]; cbn [length] in Htl; try lia.
    apply wp_bind. eapply wp_store_char_ok.
    { state_simpl. cbn [ptr_add]. rewrite size_t_small by lia.
      replace (0 + 2 * size) with (Z.of_nat (length (map Some (hexs bs)))).
      - eapply store_at. rewrite lookup_insert_eq. reflexivity.
      - rewrite length_map, hexs_length. lia. }
    state_simpl. rewrite insert_insert_eq.
    apply wp_bind. eapply (wp_read_string_ok _ (string_of_list_byte (hexs bs))).
    { state_simpl. unfold load_string. rewrite decide_True by lia.
      rewrite lookup_insert_eq. change (Z.to_nat 0) with O. rewrite drop_0.
      rewrite cstr_terminated by apply hexs_nonzero. reflexivity. }
    apply wp_printf_to. state_simpl.
    rewrite map_app. reflexivity.
Qed.

(** One step of a hex loop: byte [k] of [bs] goes to cells [2k], [2k+1]. *)
Lemma wp_hex_step b (bs : list byte) (k : nat) v (tl : list cell) j
    (Q : unit -> state -> Prop) X U st :
  mem st !! b = Some (map Some (hexs (take k bs)) ++ tl) ->
  length tl = (2 * (length bs - k) + 1)%nat ->
  bs !! k = Some v ->
  j = 2 * Z.of_nat k ->
  (forall tl',
     length tl' = (2 * (length bs - S k) + 1)%nat ->
     Q tt (set_mem (<[b := map Some (hexs (take (S k) bs)) ++ tl']> (mem st)) st)) ->
  wp (sprintf_02x (Ptr b 0 +p j) v) Q X U st.
Proof.
  intros E Htl Hv -> HQ.
  pose proof (lookup_lt_Some _ _ _ Hv) as Hk.
  destruct tl as [|c0 [|c1 [|c2 tl]]]; cbn [length] in Htl; try lia.
  eapply wp_sprintf_02x_ok; [exact E | |].
  - rewrite length_map, hexs_length, length_take. lia.
  - specialize (HQ (Some x00 :: tl)).
    rewrite (take_S_r _ _ _ Hv), hexs_snoc, map_app, <- app_assoc in HQ.
    apply HQ. cbn [length]. lia.
Qed.

(** ** [TestLib_compare_and_print], when its allocations succeed *)

Lemma first_diff_least a b i j :
  first_diff a b i -> (j < i)%nat -> a !! j = b !! j.
Proof.
  intros [_ Ht] Hj.
  rewrite <- (lookup_take_lt a i j), <- (lookup_take_lt b i j), Ht by lia.
  reflexivity.
Qed.

Lemma first_diff_unique a b i j : first_diff a b i -> first_diff a b j -> i = j.
Proof.
  intros Hi Hj. destruct (Nat.lt_trichotomy i j) as [H|[H|H]]; [|exact H|].
  - pose proof (first_diff_least _ _ _ _ Hj H) as E.
    destruct Hi as [(x & y & Hx & Hy & Hne) _]. congruence.
  - pose proof (first_diff_least _ _ _ _ Hi H) as E.
    destruct Hj as [(x & y & Hx & Hy & Hne) _]. congruence.
Qed.

Lemma two_blocks_subseteq (m0 : memory) b1 b2 l1 l2 :
  m0 !! b1 = None -> m0 !! b2 = None ->
  m0 ⊆ <[b2 := l2]> (<[b1 := l1]> m0).
Proof.
  intros H1 H2. apply insert_subseteq_r; [exact H2|]. apply insert_subseteq, H1.
Qed.

Ltac int_range := unfold INT_MIN, INT_MAX in *; lia.

Lemma compare_and_print_wp txt reference output size ref outp st :
  0 <= size < 2 ^ 30 ->
  load_bytes (mem st) reference (Z.to_nat size) = Some ref ->
  load_bytes (mem st) output (Z.to_nat size) = Some outp ->
  hd true (oracle st) = true ->
  hd true (tail (oracle st)) = true ->
  wp (TestLib_compare_and_print txt reference output size)
     (fun _ st' =>
        outp = ref /\
        st' = State (mem st) (tail (tail (oracle st)))
                (out st ++ [expected_event txt ref; computed_event txt outp;
                            success_event txt]) (junk st))
     (fun code st' =>
        code = EXIT_FAILURE /\ mem st ⊆ mem st' /\
        exists i, first_diff outp ref i /\
          out st' = out st ++ [expected_event txt ref; computed_event txt outp;
                               mismatch_event txt (Z.of_nat i)])
     (fun _ => False) st.
Proof.
  intros Hsz Href Hout Ho1 Ho2. unfold TestLib_compare_and_print.
  pose proof (load_bytes_length _ _ _ _ Href) as Hlr.
  pose proof (load_bytes_length _ _ _ _ Hout) as Hlo.
  destruct st as [m0 o out0 jk0]. cbn [mem oracle out junk] in *.
  apply wp_bind, wp_int_val_ok; [int_range|].
  apply wp_bind, wp_int_val_ok; [int_range|].
  remember (fresh (dom m0)) as b1 eqn:Eb1.
  assert (Hb1 : m0 !! b1 = None) by (subst b1; apply fresh_block_None).
  apply wp_bind, (wp_malloc_ok _ b1); [exact Ho1 | exact Eb1 |]. state_simpl.
  apply wp_bind, wp_int_val_ok; [int_range|].
  apply wp_bind, wp_int_val_ok; [int_range|].
  remember (fresh (dom (<[b1 := replicate (Z.to_nat (size_t (2 * size + 1))) None]> m0)))
    as b2 eqn:Eb2.
  assert (Hb2 : m0 !! b2 = None /\ b1 <> b2).
  { apply (lookup_insert_None m0 b1 b2 (replicate (Z.to_nat (size_t (2 * size + 1))) None)).
    subst b2. apply fresh_block_None. }
  destruct Hb2 as [Hb2 Hne].
  apply wp_bind, (wp_malloc_ok _ b2); [exact Ho2 | exact Eb2 |]. state_simpl.
  clear Eb1 Eb2.
  assert (Hsub : forall l1 l2, m0 ⊆ <[b2 := l2]> (<[b1 := l1]> m0))
    by (intros; apply two_blocks_subseteq; assumption).
  (* the hex loop *)
  apply wp_bind.
  apply (wp_for_int (fun j s => exists t1 t2,
    s = State (<[b2 := map Some (hexs (take (Z.to_nat j) ref)) ++ t2]>
                 (<[b1 := map Some (hexs (take (Z.to_nat j) outp)) ++ t1]> m0))
              (tail (tail o)) out0 jk0 /\
    length t1 = (2 * (length outp - Z.to_nat j) + 1)%nat /\
    length t2 = (2 * (length ref - Z.to_nat j) + 1)%nat)).
  - exists (replicate (Z.to_nat (size_t (2 * size + 1))) None),
           (replicate (Z.to_nat (size_t (2 * size + 1))) None).
    rewrite !length_replicate, size_t_small by lia. repeat split; lia.
  - intros j s Hj (t1 & t2 & -> & Ht1 & Ht2).
    destruct (lookup_lt_is_Some_2 outp (Z.to_nat j)) as [vo Hvo]; [lia|].
    destruct (lookup_lt_is_Some_2 ref (Z.to_nat j)) as [vr Hvr]; [lia|].
    apply wp_bind.
    apply wp_bind, wp_int_val_ok; [int_range|].
    apply wp_bind, (wp_load_u8_ok _ vo).
    { state_simpl. eapply load_mono; [apply Hsub|].
      rewrite <- (Z2Nat.id j) by lia. eapply load_bytes_lookup; eauto. }
    eapply (wp_hex_step b1 outp (Z.to_nat j)); [ | exact Ht1 | exact Hvo | lia | ].
    { state_simpl. rewrite lookup_insert_ne, lookup_insert_eq by auto. reflexivity. }
    intros t1' Ht1'. state_simpl.
    rewrite (insert_insert_ne _ b1 b2), insert_insert_eq by auto.
    apply wp_bind, wp_int_val_ok; [int_range|].
    apply wp_bind, (wp_load_u8_ok _ vr).
    { state_simpl. eapply load_mono; [apply Hsub|].
      rewrite <- (Z2Nat.id j) by lia. eapply load_bytes_lookup; eauto. }
    eapply (wp_hex_step b2 ref (Z.to_nat j)); [ | exact Ht2 | exact Hvr | lia | ].
    { state_simpl. rewrite lookup_insert_eq. reflexivity. }
    intros t2' Ht2'. state_simpl. rewrite insert_insert_eq.
    exists t1', t2'. replace (Z.to_nat (j + 1)) with (S (Z.to_nat j)) by lia.
    auto.
  - intros j s Hj _ Hr. int_range.
  - intros s (t1 & t2 & -> & Ht1 & Ht2).
    rewrite Z.add_0_l, Nat2Z.id in *. rewrite !take_ge in * by lia.
    destruct t1 as [|c1 [|? ?]]; cbn [length] in Ht1; try lia.
    destruct t2 as [|c2 [|? ?]]; cbn [length] in Ht2; try lia.
    assert (Hoff : forall bs : list byte, length bs = Z.to_nat size ->
              0 + 2 * size = Z.of_nat (length (map Some (hexs bs)))).
    { intros bs Hbs. rewrite length_map, hexs_length. lia. }
    (* the terminators *)
    apply wp_bind.
    apply wp_bind, wp_int_val_ok; [int_range|].
    eapply wp_store_char_ok.
    { state_simpl. cbn [ptr_add]. rewrite (Hoff outp Hlo).
      eapply store_at. rewrite lookup_insert_ne, lookup_insert_eq by auto.
      reflexivity. }
    state_simpl. rewrite (insert_insert_ne _ b1 b2), insert_insert_eq by auto.
    apply wp_bind.
    apply wp_bind, wp_int_val_ok; [int_range|].
    eapply wp_store_char_ok.
    { state_simpl. cbn [ptr_add]. rewrite (Hoff ref Hlr).
      eapply store_at. rewrite lookup_insert_eq. reflexivity. }
    state_simpl. rewrite insert_insert_eq.
    (* the two renderings *)
    apply wp_bind.
    apply wp_bind, (wp_read_string_ok _ (string_of_list_byte (hexs ref))).
    { state_simpl. unfold load_string. rewrite decide_True by lia.
      rewrite lookup_insert_eq. change (Z.to_nat 0) with O. rewrite drop_0.
      rewrite cstr_terminated by apply hexs_nonzero. reflexivity. }
    apply wp_printf_to. state_simpl.
    apply wp_bind.
    apply wp_bind, (wp_read_string_ok _ (string_of_list_byte (hexs outp))).
    { state_simpl. unfold load_string. rewrite decide_True by lia.
      rewrite lookup_insert_ne, lookup_insert_eq by auto.
      change (Z.to_nat 0) with O. rewrite drop_0.
      rewrite cstr_terminated by apply hexs_nonzero. reflexivity. }
    apply wp_printf_to. state_simpl.
    fold (expected_event txt ref). fold (computed_event txt outp).
    rewrite <- app_assoc. cbn [app].
    (* the comparison loop *)
    set (m2 := <[b2 := map Some (hexs ref) ++ [Some x00]]>
                 (<[b1 := map Some (hexs outp) ++ [Some x00]]> m0)).
    set (out2 := out0 ++ [expected_event txt ref; computed_event txt outp]).
    apply wp_bind.
    apply (wp_for_int (fun j s =>
      s = State m2 (tail (tail o)) out2 jk0 /\
      take (Z.to_nat j) outp = take (Z.to_nat j) ref)).
    + split; reflexivity.
    + intros j s Hj [-> Htk].
      destruct (lookup_lt_is_Some_2 outp (Z.to_nat j)) as [vo Hvo]; [lia|].
      destruct (lookup_lt_is_Some_2 ref (Z.to_nat j)) as [vr Hvr]; [lia|].
      apply wp_bind, (wp_load_u8_ok _ vo).
      { state_simpl. eapply load_mono; [apply Hsub|].
        rewrite <- (Z2Nat.id j) by lia. eapply load_bytes_lookup; eauto. }
      apply wp_bind, (wp_load_u8_ok _ vr).
      { state_simpl. eapply load_mono; [apply Hsub|].
        rewrite <- (Z2Nat.id j) by lia. eapply load_bytes_lookup; eauto. }
      destruct (Byte.eqb vo vr) eqn:E; cbn [negb].
      * apply Byte.byte_dec_bl in E. subst vr. apply wp_ret. split; [reflexivity|].
        replace (Z.to_nat (j + 1)) with (S (Z.to_nat j)) by lia.
        rewrite (take_S_r _ _ _ Hvo), (take_S_r _ _ _ Hvr), Htk. reflexivity.
      * apply Byte.eqb_false in E.
        apply wp_bind, wp_printf_to. state_simpl. apply wp_exit.
        split; [reflexivity|]. split; [apply Hsub|].
        exists (Z.to_nat j). split.
        -- split; [exists vo, vr; auto | exact Htk].
        -- cbn [out]. subst out2. rewrite <- app_assoc. cbn [app].
           rewrite Z2Nat.id by lia. reflexivity.
    + intros j s Hj _ Hr. int_range.
    + intros s [-> Htk]. rewrite Z.add_0_l, Nat2Z.id in Htk.
      rewrite !take_ge in Htk by lia.
      apply wp_bind, wp_printf_to. state_simpl.
      apply wp_bind. eapply (wp_free_ok b1).
      { state_simpl. subst m2. rewrite lookup_insert_ne, lookup_insert_eq by auto.
        reflexivity. }
      state_simpl. eapply (wp_free_ok b2).
      { state_simpl. subst m2.
        rewrite lookup_delete_ne, lookup_insert_eq by auto. reflexivity. }
      state_simpl. split; [exact Htk|]. subst m2 out2.
      rewrite delete_insert_ne by auto.
      rewrite (delete_insert_id m0 b1) by auto.
      rewrite delete_insert_id by auto.
      rewrite <- app_assoc. reflexivity.
Qed.

(** ** What a call does to memory, on every path *)

Lemma del_subseteq p (m : memory) : del p m ⊆ m.
Proof. destruct p; [reflexivity | apply delete_subseteq]. Qed.

Lemma del_comm p q (m : memory) : del p (del q m) = del q (del p m).
Proof. destruct p, q; cbn; try reflexivity. apply delete_delete. Qed.

Lemma del_ptr_add p k (m : memory) : del (p +p k) m = del p m.
Proof. destruct p; reflexivity. Qed.

Lemma del_store p v (m m' : memory) : store m p v = Some m' -> del p m' = del p m.
Proof.
  intros H. apply store_Some in H as (b & off & l & -> & _ & _ & _ & ->).
  cbn. apply delete_insert_eq.
Qed.

Lemma owned_frame m0 p1 p2 s : owned m0 p1 p2 s -> m0 ⊆ mem s.
Proof.
  intros <-. etransitivity; [apply del_subseteq | apply del_subseteq].
Qed.

Lemma owned_store_1 m0 p1 p2 k v m' s :
  owned m0 p1 p2 s -> store (mem s) (p1 +p k) v = Some m' ->
  owned m0 p1 p2 (set_mem m' s).
Proof.
  unfold owned. intros <- H. apply del_store in H. rewrite !del_ptr_add in H.
  cbn [set_mem mem]. rewrite (del_comm p1 p2 m'), (del_comm p1 p2 (mem s)), H.
  reflexivity.
Qed.

Lemma owned_store_2 m0 p1 p2 k v m' s :
  owned m0 p1 p2 s -> store (mem s) (p2 +p k) v = Some m' ->
  owned m0 p1 p2 (set_mem m' s).
Proof.
  unfold owned. intros <- H. apply del_store in H. rewrite !del_ptr_add in H.
  cbn [set_mem mem]. congruence.
Qed.

Section keeps_rules.
Variable I : state -> Prop.
Hypothesis I_mem : forall s s', mem s = mem s' -> I s -> I s'.

Lemma keeps_ret {A} (a : A) : keeps I (ret a).
Proof. intros st H. exact H. Qed.

Lemma keeps_exit {A} code : keeps I (@exit A code).
Proof. intros st H. exact H. Qed.

Lemma keeps_bind {A B} (c : M A) (k : A -> M B) :
  keeps I c -> (forall a, keeps I (k a)) -> keeps I (bind c k).
Proof.
  intros Hc Hk st H. apply wp_bind.
  eapply wp_mono; [apply Hc, H | | auto | auto].
  intros a s Hs. apply Hk, Hs.
Qed.

Lemma keeps_int_val z : keeps I (int_val z).
Proof. intros st H. apply wp_int_val; auto. Qed.

Lemma keeps_load_u8 p : keeps I (load_u8 p).
Proof.
  intros st H. apply wp_load_u8; [|exact H].
  intros v st' Hm _ _. eapply I_mem; [|exact H]. symmetry. exact Hm.
Qed.

Lemma keeps_read_string p : keeps I (read_string p).
Proof. intros st H. apply wp_read_string; auto. Qed.

Lemma keeps_printf_to s fmt args : keeps I (printf_to s fmt args).
Proof. intros st H. apply wp_printf_to. eapply I_mem; [|exact H]. reflexivity. Qed.

Lemma keeps_for_int body n :
  (forall j, keeps I (body j)) -> forall i, keeps I (for_int n i body).
Proof.
  intros Hbody i st H.
  apply (wp_for_int (fun _ => I)); auto. intros j s _ Hs. apply Hbody, Hs.
Qed.

(** Sequencing a preserving step before the rest of a computation. *)
Lemma wp_keeps_bind {A B} (c : M A) (k : A -> M B)
    (Q : B -> state -> Prop) (X : Z -> state -> Prop) (U : state -> Prop) st :
  keeps I c -> I st ->
  (forall a s, I s -> wp (k a) Q X U s) ->
  (forall code s, I s -> X code s) ->
  (forall s, I s -> U s) ->
  wp (bind c k) Q X U st.
Proof.
  intros Hc H Hk HX HU. apply wp_bind.
  eapply wp_mono; [apply Hc, H | | auto | auto]. auto.
Qed.
End keeps_rules.

Section keeps_owned.
Variables (m0 : memory) (p1 p2 : ptr).

Lemma owned_mem s s' : mem s = mem s' -> owned m0 p1 p2 s -> owned m0 p1 p2 s'.
Proof. unfold owned. intros ->. auto. Qed.

Lemma keeps_store_1 k v : keeps (owned m0 p1 p2) (store_char (p1 +p k) v).
Proof.
  intros st H. apply wp_store_char; [|auto].
  intros m' Hm. eapply owned_store_1; eauto.
Qed.

Lemma keeps_store_2 k v : keeps (owned m0 p1 p2) (store_char (p2 +p k) v).
Proof.
  intros st H. apply wp_store_char; [|auto].
  intros m' Hm. eapply owned_store_2; eauto.
Qed.

Lemma keeps_sprintf_1 k v : keeps (owned m0 p1 p2) (sprintf_02x (p1 +p k) v).
Proof.
  unfold sprintf_02x. rewrite !ptr_add_add.
  repeat (apply keeps_bind; [apply keeps_store_1 | intros _]).
  apply keeps_store_1.
Qed.

Lemma keeps_sprintf_2 k v : keeps (owned m0 p1 p2) (sprintf_02x (p2 +p k) v).
Proof.
  unfold sprintf_02x. rewrite !ptr_add_add.
  repeat (apply keeps_bind; [apply keeps_store_2 | intros _]).
  apply keeps_store_2.
Qed.
End keeps_owned.

(** [malloc] hands out a block that was not there before. *)
Lemma wp_malloc_del n (Q : ptr -> state -> Prop) X U st :
  (forall p s', del p (mem s') = mem st -> Q p s') ->
  wp (malloc n) Q X U st.
Proof.
  intros HQ. apply wp_malloc; intros _; apply HQ; cbn [del mem].
  - reflexivity.
  - apply delete_insert_id, fresh_block_None.
Qed.

(** A [free] that returns has released the block of its argument. *)
Lemma wp_free_del p (Q : unit -> state -> Prop) X U st :
  Q tt (set_mem (del p (mem st)) st) -> U st -> wp (free p) Q X U st.
Proof.
  intros HQ HU. apply wp_free.
  - intros ->. destruct st. exact HQ.
  - intros b l -> _. exact HQ.
  - auto.
Qed.

Ltac keeps_step :=
  lazymatch goal with
  | |- keeps _ (bind _ _) => apply keeps_bind; [|intros ?]
  | |- keeps _ (for_int _ _ _) => apply keeps_for_int; intros ?
  | |- keeps _ (int_val _) => apply keeps_int_val
  | |- keeps _ (load_u8 _) => apply keeps_load_u8; apply owned_mem
  | |- keeps _ (read_string _) => apply keeps_read_string
  | |- keeps _ (printf_to _ _ _) => apply keeps_printf_to; apply owned_mem
  | |- keeps _ (printf _ _) => apply keeps_printf_to; apply owned_mem
  | |- keeps _ (fprintf _ _ _) => apply keeps_printf_to; apply owned_mem
  | |- keeps (owned _ ?p _) (sprintf_02x (?p +p _) _) => apply keeps_sprintf_1
  | |- keeps (owned _ _ ?p) (sprintf_02x (?p +p _) _) => apply keeps_sprintf_2
  | |- keeps (owned _ ?p _) (store_char (?p +p _) _) => apply keeps_store_1
  | |- keeps (owned _ _ ?p) (store_char (?p +p _) _) => apply keeps_store_2
  | |- keeps _ (exit _) => apply keeps_exit
  | |- keeps _ (ret _) => apply keeps_ret
  | |- keeps _ (if ?b then _ else _) => destruct b
  end.

Ltac keeps_auto := repeat keeps_step.

(** [TestLib_compare_and_print]: a return leaves memory as it found it; an
    exit or a fault leaves every block that was there untouched. *)
Lemma compare_and_print_mem txt reference output size st :
  wp (TestLib_compare_and_print txt reference output size)
     (fun _ s => mem s = mem st)
     (fun _ s => mem st ⊆ mem s)
     (fun s => mem st ⊆ mem s) st.
Proof.
  unfold TestLib_compare_and_print. remember (mem st) as m0 eqn:Em0.
  assert (F0 : m0 ⊆ mem st) by (subst m0; reflexivity).
  apply wp_bind, wp_int_val; [intros _ | auto].
  apply wp_bind, wp_int_val; [intros _ | auto].
  apply wp_bind, wp_malloc_del. rewrite <- Em0. intros str s1 H1.
  assert (F1 : m0 ⊆ mem s1) by (rewrite <- H1; apply del_subseteq).
  apply wp_bind, wp_int_val; [intros _ | auto].
  apply wp_bind, wp_int_val; [intros _ | auto].
  apply wp_bind, wp_malloc_del. intros str_ref s2 H2.
  assert (Hown : owned m0 str str_ref s2) by (unfold owned; congruence).
  clear H1 H2 F0 F1 Em0. revert Hown. generalize s2. clear st s1 s2. intros s Hown.
  pose proof (owned_frame m0 str str_ref) as Hfr.
  do 7 (eapply (wp_keeps_bind (owned m0 str str_ref));
        [ solve [keeps_auto]
        | exact Hown | clear s Hown; intros _ s Hown | auto | auto ]).
  apply wp_bind, wp_free_del; [|auto].
  apply wp_free_del.
  - cbn [set_mem mem]. rewrite del_comm. exact Hown.
  - cbn [set_mem mem]. rewrite <- Hown, del_comm. apply del_subseteq.
Qed.

(** [print_buf]: every block that was there is untouched, on every path. *)
Lemma print_buf_mem buf size file line st :
  wp (print_buf buf size file line)
     (fun _ s => mem st ⊆ mem s)
     (fun _ s => mem st ⊆ mem s)
     (fun s => mem st ⊆ mem s) st.
Proof.
  unfold print_buf. remember (mem st) as m0 eqn:Em0.
  apply wp_bind, wp_malloc_del. rewrite <- Em0. intros str s Hs.
  assert (Hown : owned m0 str Null s) by exact Hs. clear Hs.
  pose proof (owned_frame m0 str Null) as Hfr.
  apply (wp_mono _ (fun _ => owned m0 str Null) _ (fun _ => owned m0 str Null)
           _ (owned m0 str Null)); [ | intros _; exact Hfr .. | exact Hfr ].
  lazymatch goal with
  | |- wp ?c _ _ _ _ =>
      assert (K : keeps (owned m0 str Null) c) by keeps_auto; exact (K s Hown)
  end.
Qed.

(** ** Running a computation whose [wp] is known *)

Lemma wp_outcome {A} (c : M A) Q X U st :
  wp c Q X U st ->
  (exists a, c st = (Return a, (c st).2) /\ Q a (c st).2) \/
  (exists code, c st = (Exit code, (c st).2) /\ X code (c st).2) \/
  (c st = (Undefined, (c st).2) /\ U (c st).2).
Proof.
  unfold wp. destruct (c st) as [[a|code|] st']; cbn; eauto.
Qed.

(** ** Allocation failure inside [print_buf] and [TestLib_compare_and_print] *)

(** [malloc] returns [NULL] exactly when the oracle refuses. *)
Lemma wp_malloc_null n (Q : ptr -> state -> Prop) X U st :
  (forall p s',
     (hd true (oracle st) = false -> p = Null) ->
     oracle s' = tail (oracle st) ->
     Q p s') ->
  wp (malloc n) Q X U st.
Proof.
  intros HQ. apply wp_malloc; intros Ho; apply HQ; cbn; congruence.
Qed.

Lemma store_null (m : memory) k v : store m (Null +p k) v = None.
Proof. reflexivity. Qed.

(** Steps of a run that is bound to fault: a step that succeeds is followed,
    a step that faults ends the proof. *)
Ltac fault_step :=
  lazymatch goal with
  | |- wp (bind _ _) _ _ _ _ => apply wp_bind
  | |- wp (ret _) _ _ _ _ => apply wp_ret; cbv beta
  | |- wp (int_val _) _ _ _ _ => apply wp_int_val; [intros _ | intros _; exact I]
  | |- wp (load_u8 _) _ _ _ _ => apply wp_load_u8; [intros ? ? _ _ _ | exact I]
  | |- wp (sprintf_02x _ _) _ _ _ _ => unfold sprintf_02x
  | |- wp (store_char (Null +p _) _) _ _ _ _ =>
      apply wp_store_char; [intros ? ?; discriminate | intros _; exact I]
  | |- wp (store_char _ _) _ _ _ _ =>
      apply wp_store_char; [intros ? _ | intros _; exact I]
  end.

Lemma print_buf_oom buf size file line st :
  hd true (oracle st) = false ->
  wp (print_buf buf size file line)
     (fun _ _ => False) (fun _ _ => False) (fun _ => True) st.
Proof.
  intros Ho. unfold print_buf.
  apply wp_bind, wp_malloc_null. intros str s1 Hnull _.
  rewrite (Hnull Ho). clear.
  destruct (Z.to_nat size) as [|n]; cbn [for_int]; repeat fault_step.
Qed.

Lemma compare_and_print_oom txt reference output size st :
  hd true (oracle st) = false \/ hd true (tail (oracle st)) = false ->
  wp (TestLib_compare_and_print txt reference output size)
     (fun _ _ => False) (fun _ _ => False) (fun _ => True) st.
Proof.
  intros Ho. unfold TestLib_compare_and_print.
  do 2 fault_step. do 2 fault_step.
  apply wp_bind, wp_malloc_null. intros str s1 Hnull1 Hs1.
  do 2 fault_step. do 2 fault_step.
  apply wp_bind, wp_malloc_null. intros str_ref s2 Hnull2 _.
  rewrite Hs1 in Hnull2.
  destruct Ho as [Ho|Ho]; [rewrite (Hnull1 Ho) | rewrite (Hnull2 Ho)];
    clear; destruct (Z.to_nat size) as [|n]; cbn [for_int]; repeat fault_step.
Qed.

(** The two ways a run of [TestLib_compare_and_print] can end when its
    inputs are in range and its allocations succeed. *)
Lemma compare_and_print_run txt reference output size ref outp st :
  0 <= size < 2 ^ 30 ->
  load_bytes (mem st) reference (Z.to_nat size) = Some ref ->
  load_bytes (mem st) output (Z.to_nat size) = Some outp ->
  hd true (oracle st) = true ->
  hd true (tail (oracle st)) = true ->
  (outp = ref /\
   TestLib_compare_and_print txt reference output size st
   = (Return tt,
      State (mem st) (tail (tail (oracle st)))
        (out st ++ [expected_event txt ref; computed_event txt outp;
                    success_event txt]) (junk st))) \/
  (exists (i : nat) st',
     first_diff outp ref i /\
     TestLib_compare_and_print txt reference output size st
     = (Exit EXIT_FAILURE, st') /\
     mem st ⊆ mem st' /\
     out st' = out st ++ [expected_event txt ref; computed_event txt outp;
                          mismatch_event txt (Z.of_nat i)]).
Proof.
  intros Hsz Href Hout Ho1 Ho2.
  pose proof (compare_and_print_wp txt _ _ _ _ _ _ Hsz Href Hout Ho1 Ho2) as H.
  apply wp_outcome in H as [([] & E & -> & Hst)|[(code & E & -> & Hm & i & Hi & Ho)|[_ []]]].
  - left. split; [reflexivity|]. rewrite E. f_equal. exact Hst.
  - right. exists i. eexists. eauto.
Qed.

Lemma first_diff_differ a b i : first_diff a b i -> a <> b.
Proof. intros [(x & y & Hx & Hy & Hne) _] ->. congruence. Qed.

Lemma take_eq_lookup (a b : list byte) (i : nat) :
  (forall j : nat, (j < i)%nat -> a !! j = b !! j) -> take i a = take i b.
Proof.
  intros H. apply list_eq. intros j.
  destruct (decide (j < i)%nat) as [Hj|Hj].
  - rewrite !lookup_take_lt by lia. auto.
  - rewrite !lookup_take_ge by lia. reflexivity.
Qed.

(** ** Sizes beyond the range of the [int] index arithmetic *)

Lemma compare_and_print_overflow txt reference output size st :
  2 ^ 30 <= size ->
  (TestLib_compare_and_print txt reference output size st).1 = Undefined.
Proof.
  intros H. unfold TestLib_compare_and_print, bind, int_val.
  rewrite decide_False by int_range. reflexivity.
Qed.

Lemma print_buf_overflow buf size file line st :
  2 ^ 30 < size ->
  wp (print_buf buf size file line)
     (fun _ _ => False) (fun _ _ => False) (fun _ => True) st.
Proof.
  intros Hsz. unfold print_buf.
  apply wp_bind, wp_malloc_del. intros str s1 _.
  apply wp_bind. apply (wp_for_int (fun j _ => j <= 2 ^ 30)).
  - lia.
  - intros j s Hj _.
    apply wp_bind, wp_int_val; [intros Hr | intros _; exact I].
    repeat fault_step. int_range.
  - intros; exact I.
  - intros s H. lia.
Qed.

(** Every way a run of [print_buf] on a readable buffer can end. *)
Lemma print_buf_cases buf size file line bs st :
  0 <= size ->
  load_bytes (mem st) buf (Z.to_nat size) = Some bs ->
  (size <= 2 ^ 30 /\ hd true (oracle st) = true /\
   print_buf buf size file line st
   = (Return tt,
      State (<[fresh (dom (mem st)) := map Some (hexs bs ++ [x00])]> (mem st))
            (tail (oracle st))
            (out st ++ [print_buf_event file line bs]) (junk st))) \/
  (~ (size <= 2 ^ 30 /\ hd true (oracle st) = true) /\
   (print_buf buf size file line st).1 = Undefined).
Proof.
  intros Hsz Hbs.
  destruct (decide (size <= 2 ^ 30)) as [Hle|Hgt].
  - destruct (hd true (oracle st)) eqn:Ho.
    + left. split; [exact Hle|]. split; [reflexivity|].
      pose proof (print_buf_wp buf size file line bs st (conj Hsz Hle) Hbs Ho) as H.
      apply wp_outcome in H as [([] & E & Hst)|[(code & _ & [])|[_ []]]].
      rewrite E, Hst. reflexivity.
    + right. split; [intros [_ H]; discriminate|].
      pose proof (print_buf_oom buf size file line st Ho) as H.
      apply wp_outcome in H as [(a & _ & [])|[(code & _ & [])|[-> _]]]. reflexivity.
  - right. split; [intros [H _]; contradiction|].
    pose proof (print_buf_overflow buf size file line st ltac:(lia)) as H.
    apply wp_outcome in H as [(a & _ & [])|[(code & _ & [])|[-> _]]]. reflexivity.
Qed.

(** Every way a run of [TestLib_compare_and_print] on readable buffers can
    end. *)
Lemma compare_and_print_cases txt reference output size ref outp st :
  0 <= size ->
  load_bytes (mem st) reference (Z.to_nat size) = Some ref ->
  load_bytes (mem st) output (Z.to_nat size) = Some outp ->
  (outp = ref /\
   TestLib_compare_and_print txt reference output size st
   = (Return tt,
      State (mem st) (tail (tail (oracle st)))
        (out st ++ [expected_event txt ref; computed_event txt outp;
                    success_event txt]) (junk st))) \/
  (exists (i : nat) st',
     first_diff outp ref i /\
     TestLib_compare_and_print txt reference output size st
     = (Exit EXIT_FAILURE, st') /\
     mem st ⊆ mem st' /\
     out st' = out st ++ [expected_event txt ref; computed_event txt outp;
                          mismatch_event txt (Z.of_nat i)]) \/
  (~ (size < 2 ^ 30 /\ hd true (oracle st) = true /\
      hd true (tail (oracle st)) = true) /\
   (TestLib_compare_and_print txt reference output size st).1 = Undefined).
Proof.
  intros Hsz Href Hout.
  destruct (decide (size < 2 ^ 30)) as [Hlt|Hge].
  - destruct (hd true (oracle st)) eqn:Ho1.
    + destruct (hd true (tail (oracle st))) eqn:Ho2.
      * destruct (compare_and_print_run txt _ _ _ _ _ _ (conj Hsz Hlt) Href Hout Ho1 Ho2)
          as [H|H]; auto.
      * right. right. split; [intros (_ & _ & H); discriminate|].
        pose proof (compare_and_print_oom txt reference output size st (or_intror Ho2)) as H.
        apply wp_outcome in H as [(a & _ & [])|[(code & _ & [])|[-> _]]]. reflexivity.
    + right. right. split; [intros (_ & H & _); discriminate|].
      pose proof (compare_and_print_oom txt reference output size st (or_introl Ho1)) as H.
      apply wp_outcome in H as [(a & _ & [])|[(code & _ & [])|[-> _]]]. reflexivity.
  - right. right. split; [intros (H & _); contradiction|].
    apply compare_and_print_overflow. lia.
Qed.

(** A block of [n] equal bytes is a readable buffer of every length up to
    [n]. *)
Lemma load_bytes_replicate (m : memory) b (n : nat) v : forall (k : nat) off,
  m !! b = Some (replicate n (Some v)) ->
  0 <= off -> (Z.to_nat off + k <= n)%nat ->
  load_bytes m (Ptr b off) k = Some (replicate k v).
Proof.
  induction k as [|k IH]; intros off Hb Hoff Hk; cbn [load_bytes replicate].
  - reflexivity.
  - cbn [ptr_add]. rewrite (IH (off + 1) Hb) by lia.
    unfold load. rewrite decide_True by lia. rewrite Hb.
    rewrite lookup_replicate_2 by lia. reflexivity.
Qed.

(** The two ways [TestLib_unsafe_malloc] can end. *)
Lemma unsafe_malloc_run (size : Z) (st : state) :
  (exists b,
     (malloc size st).1 = Return (Ptr b 0) /\
     mem st !! b = None /\
     TestLib_unsafe_malloc size st
     = (Return (Ptr b 0),
        State (<[b := replicate (Z.to_nat size) None]> (mem st))
              (tail (oracle st)) (out st) (junk st))) \/
  ((malloc size st).1 = Return Null /\
   TestLib_unsafe_malloc size st
   = (Exit EXIT_FAILURE,
      State (mem st) (tail (oracle st))
            (out st ++ [Printf Stdout " WARNING : malloc failed in tests !\n" []]) (junk st))).
Proof.
  unfold TestLib_unsafe_malloc, bind, malloc.
  destruct (oracle st) as [|[|] o]; cbn.
  - left. eexists. repeat split. apply fresh_block_None.
  - left. eexists. repeat split. apply fresh_block_None.
  - right. split; reflexivity.
Qed.

(** * The claims *)

(** C1, as stated, fails: on two equal two-byte buffers, when the allocator
    refuses a request, the call neither returns nor exits (it faults storing
    through [NULL]); and on a buffer of [2^30] bytes compared with itself,
    the [int] expression [2 * size] overflows. *)
Lemma C1_counterexample :
  (load_bytes demo_mem (Ptr 5 0) 2 = Some [x01; xab] /\
   load_bytes demo_mem (Ptr 6 0) 2 = Some [x01; xab] /\
   (TestLib_compare_and_print "t" (Ptr 5 0) (Ptr 6 0) 2 demo_state_oom).1
   = Undefined) /\
  (Z.of_nat huge = 2 ^ 30 /\
   load_bytes huge_mem (Ptr 5 0) huge = Some (replicate huge x00) /\
   (TestLib_compare_and_print "t" (Ptr 5 0) (Ptr 5 0) (2 ^ 30) huge_state).1
   = Undefined).
Proof.
  split; [repeat split; reflexivity|]. split; [|split].
  - unfold huge. apply Z2Nat.id. lia.
  - apply (load_bytes_replicate huge_mem 5%positive huge x00 huge 0).
    + apply lookup_insert_eq.
    + lia.
    + exact (Nat.le_refl huge).
  - apply compare_and_print_overflow. lia.
Qed.

(** C1, amended. With buffers of [size] bytes at [reference] and [output],
    [0 <= size < 2^30] (the sizes for which [2 * size + 1] is an [int]) and
    both internal allocations granted: if the buffers agree at every index,
    the call returns, its last output being the success line on stdout; if
    they differ at some index, the call exits with [EXIT_FAILURE], its last
    output being the mismatch line on stderr. *)
Theorem C1_compare_and_print_verdict
    txt reference output size (ref outp : list byte) st :
  0 <= size < 2 ^ 30 ->
  load_bytes (mem st) reference (Z.to_nat size) = Some ref ->
  load_bytes (mem st) output (Z.to_nat size) = Some outp ->
  hd true (oracle st) = true ->
  hd true (tail (oracle st)) = true ->
  ((forall i : nat, (i < Z.to_nat size)%nat -> outp !! i = ref !! i) ->
   exists st',
     TestLib_compare_and_print txt reference output size st = (Return tt, st') /\
     out st' = out st ++
       [expected_event txt ref; computed_event txt outp;
        Printf Stdout "[test] %s is a success\n" [PStr txt]]) /\
  ((exists i : nat, (i < Z.to_nat size)%nat /\ outp !! i <> ref !! i) ->
   exists st' (i : Z),
     TestLib_compare_and_print txt reference output size st
     = (Exit EXIT_FAILURE, st') /\
     out st' = out st ++
       [expected_event txt ref; computed_event txt outp;
        Printf Stderr "[test] reference %s and expected %s differ at byte %d\n"
          [PStr txt; PStr txt; PInt i]]).
Proof.
  intros Hsz Href Hout Ho1 Ho2.
  pose proof (load_bytes_length _ _ _ _ Href) as Hlr.
  pose proof (load_bytes_length _ _ _ _ Hout) as Hlo.
  destruct (compare_and_print_run txt _ _ _ _ _ _ Hsz Href Hout Ho1 Ho2)
    as [[Heq Hrun]|(i & st' & Hi & Hrun & _ & Hout')].
  - split.
    + intros _. eexists. split; [exact Hrun | reflexivity].
    + intros (i & _ & Hne). subst outp. contradiction.
  - split.
    + intros Hall. destruct Hi as [(x & y & Hx & Hy & Hne) _].
      pose proof (lookup_lt_Some _ _ _ Hx) as Hlt.
      specialize (Hall i ltac:(lia)). congruence.
    + intros _. exists st', (Z.of_nat i). split; assumption.
Qed.

(** C1 amended, on concrete buffers: equal ones pass, differing ones abort. *)
Lemma C1_witness :
  (TestLib_compare_and_print "t" (Ptr 5 0) (Ptr 6 0) 2 demo_state).1 = Return tt /\
  (TestLib_compare_and_print "t" (Ptr 5 0) (Ptr 7 0) 2 demo_state).1
  = Exit EXIT_FAILURE.
Proof.
  split.
  - destruct (proj1 (C1_compare_and_print_verdict "t" (Ptr 5 0) (Ptr 6 0) 2
                       [x01; xab] [x01; xab] demo_state
                       ltac:(lia) eq_refl eq_refl eq_refl eq_refl))
      as (st' & -> & _); [|reflexivity].
    intros i _. reflexivity.
  - destruct (proj2 (C1_compare_and_print_verdict "t" (Ptr 5 0) (Ptr 7 0) 2
                       [x01; xab] [x01; xac] demo_state
                       ltac:(lia) eq_refl eq_refl eq_refl eq_refl))
      as (st' & i & -> & _); [|reflexivity].
    exists 1%nat. split; [cbn; lia | discriminate].
Defined.

(** C2. For each of the four widths, and for the signed and the unsigned
    check alike: the call ends the process with exit code 253, after
    printing its failure message, exactly when [x <> y], and returns (with
    the state untouched) exactly when [x = y]. *)
Theorem C2_check_exits_253_iff_differ (w : width) (x y : Z) (st : state) :
  (((TestLib_check w x y st).1 = Exit 253 <-> x <> y) /\
   ((TestLib_check w x y st).1 = Return tt <-> x = y) /\
   (x = y -> (TestLib_check w x y st).2 = st) /\
   (x <> y ->
    (TestLib_check w x y st).2
    = State (mem st) (oracle st)
        (out st ++ [Printf Stdout
                      ("Test check failure: %" ++ PRId w ++ " != %" ++ PRId w ++ "\n")
                      [PInt x; PInt y]]) (junk st))) /\
  (((TestLib_checku w x y st).1 = Exit 253 <-> x <> y) /\
   ((TestLib_checku w x y st).1 = Return tt <-> x = y) /\
   (x = y -> (TestLib_checku w x y st).2 = st) /\
   (x <> y ->
    (TestLib_checku w x y st).2
    = State (mem st) (oracle st)
        (out st ++ [Printf Stdout
                      ("Test check failure: %" ++ PRIu w ++ " != %" ++ PRIu w ++ "\n")
                      [PUInt x; PUInt y]]) (junk st))).
Proof.
  unfold TestLib_check, TestLib_checku.
  destruct (Z.eqb_spec x y) as [E|E]; cbn.
  - repeat split; intros; congruence.
  - repeat split; intros; congruence.
Qed.

(** C3, as worded, fails on buffers that differ: when an allocation is
    refused, and when [2 * size + 1] is not an [int], the call prints
    nothing and does not abort; it runs into undefined behaviour. *)
Lemma C3_counterexample :
  (load_bytes demo_mem (Ptr 5 0) 2 = Some [x01; xab] /\
   load_bytes demo_mem (Ptr 7 0) 2 = Some [x01; xac] /\
   [x01; xac] <> [x01; xab] /\
   (TestLib_compare_and_print "t" (Ptr 5 0) (Ptr 7 0) 2 demo_state_oom).1
   = Undefined /\
   out (TestLib_compare_and_print "t" (Ptr 5 0) (Ptr 7 0) 2 demo_state_oom).2
   = []) /\
  (Z.of_nat huge = 2 ^ 30 /\
   load_bytes huge_pair_mem (Ptr 5 0) huge = Some (replicate huge x00) /\
   load_bytes huge_pair_mem (Ptr 6 0) huge = Some (replicate huge x01) /\
   replicate huge x01 <> replicate huge x00 /\
   (TestLib_compare_and_print "t" (Ptr 5 0) (Ptr 6 0) (2 ^ 30)
      huge_pair_state).1 = Undefined /\
   out (TestLib_compare_and_print "t" (Ptr 5 0) (Ptr 6 0) (2 ^ 30)
          huge_pair_state).2 = []).
Proof.
  split.
  - split; [reflexivity|]. split; [reflexivity|]. split; [discriminate|].
    split; reflexivity.
  - assert (Hpos : (0 < huge)%nat) by (unfold huge; lia).
    split; [unfold huge; apply Z2Nat.id; lia|]. split; [|split; [|split]].
    + apply (load_bytes_replicate huge_pair_mem 5%positive huge x00 huge 0).
      * apply lookup_insert_eq.
      * lia.
      * exact (Nat.le_refl huge).
    + apply (load_bytes_replicate huge_pair_mem 6%positive huge x01 huge 0).
      * unfold huge_pair_mem. rewrite lookup_insert_ne by discriminate.
        apply lookup_insert_eq.
      * lia.
      * exact (Nat.le_refl huge).
    + intros E. apply (f_equal (fun l => l !! 0%nat)) in E.
      rewrite !lookup_replicate_2 in E by exact Hpos. discriminate.
    + unfold TestLib_compare_and_print, bind, int_val.
      rewrite decide_False by (unfold INT_MIN, INT_MAX; lia).
      split; reflexivity.
Qed.

(** C3. On buffers of [size] bytes: whenever the call aborts, it has by then
    printed the expected line and then the computed line, each with the
    rendering of the whole buffer, and last the mismatch line on stderr,
    whose index is the least one at which the buffers differ. And abort it
    does, on buffers that differ, when [2 * size + 1] is an [int] and both
    allocations are granted. *)
Theorem C3_first_mismatch_reported
    txt reference output size (ref outp : list byte) st :
  0 <= size ->
  load_bytes (mem st) reference (Z.to_nat size) = Some ref ->
  load_bytes (mem st) output (Z.to_nat size) = Some outp ->
  (forall code st',
     TestLib_compare_and_print txt reference output size st = (Exit code, st') ->
     exists s_ref s_out (i : nat),
       out st' = out st ++
         [Printf Stdout "[test] expected output %s is %s\n" [PStr txt; PStr s_ref];
          Printf Stdout "[test] computed output %s is %s\n" [PStr txt; PStr s_out];
          Printf Stderr "[test] reference %s and expected %s differ at byte %d\n"
            [PStr txt; PStr txt; PInt (Z.of_nat i)]] /\
       hex_rendering ref s_ref /\ hex_rendering outp s_out /\
       (i < Z.to_nat size)%nat /\ outp !! i <> ref !! i /\
       (forall j : nat, (j < i)%nat -> outp !! j = ref !! j)) /\
  (size < 2 ^ 30 ->
   hd true (oracle st) = true ->
   hd true (tail (oracle st)) = true ->
   outp <> ref ->
   exists st',
     TestLib_compare_and_print txt reference output size st
     = (Exit EXIT_FAILURE, st')).
Proof.
  intros Hsz Href Hout.
  pose proof (load_bytes_length _ _ _ _ Hout) as Hlo.
  destruct (compare_and_print_cases txt _ _ _ _ _ _ Hsz Href Hout)
    as [[Heq Hrun]|[(i & st1 & Hi & Hrun & _ & Hout')|[Hn Hund]]].
  - split.
    + intros code st' E. rewrite Hrun in E. discriminate.
    + intros _ _ _ Hne. contradiction.
  - split.
    + intros code st' E. rewrite Hrun in E. injection E as _ <-.
      exists (string_of_list_byte (hexs ref)), (string_of_list_byte (hexs outp)), i.
      split; [exact Hout'|]. split; [apply hexs_rendering|].
      split; [apply hexs_rendering|].
      pose proof Hi as [(x & y & Hx & Hy & Hne) _].
      pose proof (lookup_lt_Some _ _ _ Hx) as Hlt.
      split; [lia|]. split; [congruence|].
      intros j Hj. exact (first_diff_least _ _ _ _ Hi Hj).
    + intros _ _ _ _. exists st1. exact Hrun.
  - split.
    + intros code st' E. rewrite E in Hund. discriminate.
    + intros H1 H2 H3 _. exfalso. apply Hn. auto.
Qed.

(** C3, on buffers that first differ in byte 1. *)
Lemma C3_witness :
  exists st',
    TestLib_compare_and_print "t" (Ptr 5 0) (Ptr 7 0) 2 demo_state
    = (Exit EXIT_FAILURE, st') /\
    last (out st')
    = Some (Printf Stderr "[test] reference %s and expected %s differ at byte %d\n"
              [PStr "t"; PStr "t"; PInt 1]).
Proof.
  destruct (C3_first_mismatch_reported "t" (Ptr 5 0) (Ptr 7 0) 2
              [x01; xab] [x01; xac] demo_state
              ltac:(lia) eq_refl eq_refl) as [Hexit Htotal].
  destruct Htotal as [st' Hrun]; [lia | reflexivity | reflexivity | discriminate |].
  exists st'. split; [exact Hrun|].
  replace st' with (TestLib_compare_and_print "t" (Ptr 5 0) (Ptr 7 0) 2 demo_state).2
    by (rewrite Hrun; reflexivity).
  reflexivity.
Defined.

(** C4. [TestLib_unsafe_malloc] either returns a pointer to the start of a
    fresh block of [size] indeterminate bytes, or, when [malloc] returned
    [NULL], prints the warning and exits with [EXIT_FAILURE]; it never
    returns [NULL]. *)
Theorem C4_unsafe_malloc_never_returns_null (size : Z) (st : state) :
  ((exists b,
      (malloc size st).1 = Return (Ptr b 0) /\
      mem st !! b = None /\
      TestLib_unsafe_malloc size st
      = (Return (Ptr b 0),
         State (<[b := replicate (Z.to_nat size) None]> (mem st))
               (tail (oracle st)) (out st) (junk st))) \/
   ((malloc size st).1 = Return Null /\
    TestLib_unsafe_malloc size st
    = (Exit EXIT_FAILURE,
       State (mem st) (tail (oracle st))
             (out st ++ [Printf Stdout " WARNING : malloc failed in tests !\n" []]) (junk st)))) /\
  (TestLib_unsafe_malloc size st).1 <> Return Null.
Proof.
  split; [apply unsafe_malloc_run|].
  destruct (unsafe_malloc_run size st) as [(b & _ & _ & ->)|[_ ->]]; discriminate.
Qed.

(** C5. The claim fails in the code: when an internal allocation of
    [print_buf] or of [TestLib_compare_and_print] fails, the function does
    not exit; it goes on to store through the [NULL] pointer, which is
    undefined behaviour. *)
Theorem C5_allocation_failure_unchecked :
  (forall buf size file line st,
     hd true (oracle st) = false ->
     (print_buf buf size file line st).1 = Undefined) /\
  (forall txt reference output size st,
     hd true (oracle st) = false \/ hd true (tail (oracle st)) = false ->
     (TestLib_compare_and_print txt reference output size st).1 = Undefined).
Proof.
  split.
  - intros buf size file line st Ho.
    pose proof (print_buf_oom buf size file line st Ho) as H.
    apply wp_outcome in H as [(a & _ & [])|[(code & _ & [])|[-> _]]]. reflexivity.
  - intros txt reference output size st Ho.
    pose proof (compare_and_print_oom txt reference output size st Ho) as H.
    apply wp_outcome in H as [(a & _ & [])|[(code & _ & [])|[-> _]]]. reflexivity.
Qed.

(** C5, at the failing inputs: the allocator refuses the first request. *)
Lemma C5_witness :
  (print_buf (Ptr 5 0) 2 "f.c" 7 demo_state_oom).1 = Undefined /\
  (TestLib_compare_and_print "t" (Ptr 5 0) (Ptr 6 0) 2 demo_state_oom).1 = Undefined.
Proof.
  split.
  - exact (proj1 C5_allocation_failure_unchecked (Ptr 5 0) 2 "f.c"%string 7
             demo_state_oom eq_refl).
  - exact (proj2 C5_allocation_failure_unchecked "t"%string (Ptr 5 0) (Ptr 6 0) 2
             demo_state_oom (or_introl eq_refl)).
Defined.

(** C6, as stated, fails: [TestLib_unsafe_malloc] returns with the block it
    allocated live (it hands the block to its caller), and [print_buf]
    returns without freeing its hex buffer. *)
Lemma C6_counterexample :
  ~ restores_memory (TestLib_unsafe_malloc 4) /\
  ~ restores_memory (print_buf (Ptr 5 0) 2 "f.c" 7).
Proof.
  split; intros H.
  - specialize (H demo_state (Ptr 8 0) _ eq_refl).
    apply (f_equal (fun m : memory => m !! 8%positive)) in H.
    vm_compute in H. discriminate.
  - specialize (H demo_state tt _ eq_refl).
    apply (f_equal (fun m : memory => m !! 8%positive)) in H.
    vm_compute in H. discriminate.
Qed.

(** C6, amended. [TestLib_compare_and_print] has freed both of its hex
    buffers when it returns, and the functions that allocate nothing leave
    memory alone; [TestLib_unsafe_malloc], by design, returns with its fresh
    block live: the block passes to the caller. *)
Theorem C6_memory_on_return :
  (forall txt reference output size,
     restores_memory (TestLib_compare_and_print txt reference output size)) /\
  (forall size st p st',
     TestLib_unsafe_malloc size st = (Return p, st') ->
     exists b, p = Ptr b 0 /\ mem st !! b = None /\
               mem st' = <[b := replicate (Z.to_nat size) None]> (mem st)) /\
  (forall w x y,
     restores_memory (TestLib_check w x y) /\
     restores_memory (TestLib_checku w x y)) /\
  (forall x, restores_memory (TestLib_touch x) /\ restores_memory (TestLib_perr x)) /\
  (forall a b c,
     restores_memory (TestLib_print_clock_diff a b) /\
     restores_memory (TestLib_print_cycles_per_round a b c)).
Proof.
  split; [|split; [|split; [|split]]].
  - intros txt reference output size st a st' E.
    pose proof (compare_and_print_mem txt reference output size st) as H.
    unfold wp in H. rewrite E in H. exact H.
  - intros size st p st' E.
    destruct (unsafe_malloc_run size st) as [(b & _ & Hb & E')|[_ E']];
      rewrite E' in E; [|discriminate].
    injection E as <- <-. exists b. auto.
  - intros w x y. unfold TestLib_check, TestLib_checku.
    split; intros st a st'; destruct (negb (x =? y)); cbn;
      intros E; inversion E; subst; reflexivity.
  - intros x. split; intros st a st' E; inversion E; subst; reflexivity.
  - intros a b c. split; intros st u st' E; inversion E; subst; reflexivity.
Qed.

(** C6 amended, on concrete buffers: after a successful comparison the
    memory is the caller's again. *)
Lemma C6_witness :
  mem (TestLib_compare_and_print "t" (Ptr 5 0) (Ptr 6 0) 2 demo_state).2 = demo_mem.
Proof.
  apply (proj1 C6_memory_on_return "t"%string (Ptr 5 0) (Ptr 6 0) 2 demo_state tt).
  vm_compute. reflexivity.
Defined.

(** C7. The string [print_buf] prints for a buffer of [size] bytes, and the
    two strings [TestLib_compare_and_print] prints, are hex renderings: [2 *
    size] characters, characters [2 i] and [2 i + 1] being the lowercase
    hexadecimal digits of byte [i], high digit first. In memory the string
    is followed by its NUL: [print_buf]'s block holds exactly the [2 * size]
    characters and a zero byte. This holds of every run that prints, and
    the functions do print when the [int] index arithmetic does not overflow
    and the allocations are granted. *)
Theorem C7_hex_rendering :
  (forall buf size file line (bs : list byte) st,
     0 <= size ->
     load_bytes (mem st) buf (Z.to_nat size) = Some bs ->
     (forall st',
        print_buf buf size file line st = (Return tt, st') ->
        exists s,
          out st' = out st ++
            [Printf Stdout "%s:%d: %s\n" [PStr file; PInt line; PStr s]] /\
          hex_rendering bs s /\
          mem st' !! fresh (dom (mem st))
          = Some (map Some (list_byte_of_string s ++ [x00]))) /\
     (size <= 2 ^ 30 -> hd true (oracle st) = true ->
      exists st', print_buf buf size file line st = (Return tt, st'))) /\
  (forall txt reference output size (ref outp : list byte) st,
     0 <= size ->
     load_bytes (mem st) reference (Z.to_nat size) = Some ref ->
     load_bytes (mem st) output (Z.to_nat size) = Some outp ->
     (forall o st',
        TestLib_compare_and_print txt reference output size st = (o, st') ->
        o <> Undefined ->
        exists s_ref s_out verdict,
          out st' = out st ++
            [Printf Stdout "[test] expected output %s is %s\n" [PStr txt; PStr s_ref];
             Printf Stdout "[test] computed output %s is %s\n" [PStr txt; PStr s_out];
             verdict] /\
          hex_rendering ref s_ref /\ hex_rendering outp s_out) /\
     (size < 2 ^ 30 ->
      hd true (oracle st) = true -> hd true (tail (oracle st)) = true ->
      (TestLib_compare_and_print txt reference output size st).1 <> Undefined)).
Proof.
  split.
  - intros buf size file line bs st Hsz Hbs.
    destruct (print_buf_cases buf size file line bs st Hsz Hbs)
      as [(Hle & Ho & Hrun)|[Hn Hund]].
    + split; [|intros _ _; eexists; exact Hrun].
      intros st' E. rewrite Hrun in E. injection E as <-.
      exists (string_of_list_byte (hexs bs)). cbn [out mem].
      split; [reflexivity|]. split; [apply hexs_rendering|].
      rewrite lookup_insert_eq, list_byte_of_string_of_list_byte. reflexivity.
    + split; [|intros H1 H2; exfalso; apply Hn; auto].
      intros st' E. rewrite E in Hund. discriminate.
  - intros txt reference output size ref outp st Hsz Href Hout.
    destruct (compare_and_print_cases txt _ _ _ _ _ _ Hsz Href Hout)
      as [[_ Hrun]|[(i & st1 & _ & Hrun & _ & Hout')|[Hn Hund]]].
    + split; [|intros _ _ _; rewrite Hrun; discriminate].
      intros o st' E _. rewrite Hrun in E. injection E as _ <-.
      exists (string_of_list_byte (hexs ref)), (string_of_list_byte (hexs outp)).
      eexists. split; [reflexivity|]. split; apply hexs_rendering.
    + split; [|intros _ _ _; rewrite Hrun; discriminate].
      intros o st' E _. rewrite Hrun in E. injection E as _ <-.
      exists (string_of_list_byte (hexs ref)), (string_of_list_byte (hexs outp)).
      eexists. split; [exact Hout'|]. split; apply hexs_rendering.
    + split; [|intros H1 H2 H3; exfalso; apply Hn; auto].
      intros o st' E Ho. rewrite E in Hund. contradiction.
Qed.

(** C7, on the two bytes [01 ab]: [print_buf] prints "01ab". *)
Lemma C7_witness :
  exists st',
    print_buf (Ptr 5 0) 2 "f.c" 7 demo_state = (Return tt, st') /\
    out st' = [Printf Stdout "%s:%d: %s\n" [PStr "f.c"; PInt 7; PStr "01ab"]].
Proof.
  destruct (proj1 C7_hex_rendering (Ptr 5 0) 2 "f.c"%string 7 [x01; xab] demo_state
              ltac:(lia) eq_refl) as [_ Htotal].
  destruct Htotal as [st' Hrun]; [lia | reflexivity |].
  exists st'. split; [exact Hrun|].
  replace st' with (print_buf (Ptr 5 0) 2 "f.c" 7 demo_state).2
    by (rewrite Hrun; reflexivity).
  reflexivity.
Defined.

(** C8, as worded, fails when the second counter sample is the smaller
    one: the difference is taken in the unsigned counter type, so what is
    divided is [2^64 - 1], not [-1]. *)
Lemma C8_counterexample :
  TestLib_print_cycles_per_round 1 0 1 demo_state
  = (Return tt,
     State demo_mem []
       [Printf Stdout "[perf] cpu cycles per round (averaged over %d) is %f\n"
          [PInt 1;
           PFloat (FDiv (FofZ Float 18446744073709551615) (FofZ Float 1))]]
       []) /\
  FDiv (FofZ Float 18446744073709551615) (FofZ Float 1)
  <> plain_cycles_per_round 1 0 1.
Proof. split; [reflexivity | discriminate]. Qed.

(** C8. Both timing reports print one line on stdout and return, whatever
    the samples; neither can exit or fault (also for [rounds = 0]: a
    floating-point division does not trap). [TestLib_print_clock_diff]
    prints the quotient of [(double)t2 - (double)t1] by [CLOCKS_PER_SEC].
    [TestLib_print_cycles_per_round] prints the quotient, in [float], of
    the counter difference by [rounds], where the difference is the one of
    the unsigned 64-bit counter type: [c2 - c1] when [c1 <= c2], and
    [c2 - c1 + 2^64] when the second sample is the smaller one; only in the
    first case is it the quotient over the integer difference. The count
    shown by [%d] is [rounds] below [2^31], and [rounds - 2^32] from there
    on. *)
Theorem C8_timing_reports (t1 t2 c1 c2 rounds : Z) (st : state) :
  0 <= c1 < 2 ^ 64 -> 0 <= c2 < 2 ^ 64 -> 0 <= rounds < 2 ^ 32 ->
  TestLib_print_clock_diff t1 t2 st
  = (Return tt,
     State (mem st) (oracle st)
       (out st ++
          [Printf Stdout "User time: %f\n"
             [PFloat (FDiv (FSub (FofZ Double t2) (FofZ Double t1))
                           (FofZ Double CLOCKS_PER_SEC))]])
       (junk st)) /\
  TestLib_print_cycles_per_round c1 c2 rounds st
  = (Return tt,
     State (mem st) (oracle st)
       (out st ++
          [Printf Stdout "[perf] cpu cycles per round (averaged over %d) is %f\n"
             [PInt (if decide (rounds < 2 ^ 31) then rounds
                    else rounds - 2 ^ 32);
              PFloat (FDiv (FofZ Float (if decide (c1 <= c2) then c2 - c1
                                        else c2 - c1 + 2 ^ 64))
                           (FofZ Float rounds))]])
       (junk st)) /\
  (c1 <= c2 ->
   FDiv (FofZ Float (if decide (c1 <= c2) then c2 - c1 else c2 - c1 + 2 ^ 64))
        (FofZ Float rounds)
   = plain_cycles_per_round c1 c2 rounds).
Proof.
  intros Hc1 Hc2 Hr. split; [reflexivity|]. split.
  - unfold TestLib_print_cycles_per_round, printf, printf_to.
    assert (Hd : (c2 - c1) mod 2 ^ 64
                 = if decide (c1 <= c2) then c2 - c1 else c2 - c1 + 2 ^ 64).
    { case_decide.
      - apply Z.mod_small. lia.
      - symmetry. apply (Z.mod_unique _ _ (-1)); lia. }
    assert (Hs : (if decide (rounds <= INT_MAX) then rounds else rounds - 2 ^ 32)
                 = if decide (rounds < 2 ^ 31) then rounds else rounds - 2 ^ 32).
    { unfold INT_MAX. repeat case_decide; lia. }
    rewrite Hd, Hs. reflexivity.
  - intros H. rewrite decide_True by exact H. reflexivity.
Qed.

(** C8, on samples in order, and on samples the counter wrapped between. *)
Lemma C8_witness :
  (TestLib_print_cycles_per_round 100 350 10 demo_state).1 = Return tt /\
  ev_args <$> last (out (TestLib_print_cycles_per_round 100 350 10 demo_state).2)
  = Some [PInt 10; PFloat (plain_cycles_per_round 100 350 10)] /\
  ev_args <$> last (out (TestLib_print_cycles_per_round (2 ^ 64 - 6) 4 4294967295
                           demo_state).2)
  = Some [PInt (-1); PFloat (FDiv (FofZ Float 10) (FofZ Float 4294967295))].
Proof.
  pose proof (C8_timing_reports 0 0 100 350 10 demo_state
                ltac:(lia) ltac:(lia) ltac:(lia)) as (_ & H1 & _).
  pose proof (C8_timing_reports 0 0 (2 ^ 64 - 6) 4 4294967295 demo_state
                ltac:(lia) ltac:(lia) ltac:(lia)) as (_ & H2 & _).
  rewrite H1, H2. repeat split; reflexivity.
Defined.

(** C9. Neither [print_buf] nor [TestLib_compare_and_print] writes to
    memory it was given: a byte that could be read before the call, at any
    pointer (so at every index of [buf], [reference] and [output]), reads the
    same in the state the call ends in, whether it returns, exits or faults. *)
Theorem C9_caller_buffers_unchanged (st : state) (p : ptr) (v : byte) :
  load (mem st) p = Some v ->
  (forall buf size file line,
     load (mem (print_buf buf size file line st).2) p = Some v) /\
  (forall txt reference output size,
     load (mem (TestLib_compare_and_print txt reference output size st).2) p
     = Some v).
Proof.
  intros Hv. split.
  - intros buf size file line.
    pose proof (print_buf_mem buf size file line st) as H.
    apply wp_outcome in H as [(a & _ & H)|[(code & _ & H)|[_ H]]];
      exact (load_mono _ _ _ _ H Hv).
  - intros txt reference output size.
    pose proof (compare_and_print_mem txt reference output size st) as H.
    apply wp_outcome in H as [(a & _ & H)|[(code & _ & H)|[_ H]]].
    + rewrite H. exact Hv.
    + exact (load_mono _ _ _ _ H Hv).
    + exact (load_mono _ _ _ _ H Hv).
Qed.

(** C9, on byte 1 of a buffer that was printed and then compared. *)
Lemma C9_witness :
  load (mem (print_buf (Ptr 5 0) 2 "f.c" 7 demo_state).2) (Ptr 5 1) = Some xab /\
  load (mem (TestLib_compare_and_print "t" (Ptr 5 0) (Ptr 7 0) 2 demo_state).2)
       (Ptr 5 1) = Some xab.
Proof.
  pose proof (C9_caller_buffers_unchanged demo_state (Ptr 5 1) xab eq_refl)
    as [H1 H2].
  split; [apply H1 | apply H2].
Defined.

(** C10. [TestLib_perr] prints the error code it is given and returns;
    [TestLib_touch] returns and changes nothing. Neither can exit. *)
Theorem C10_perr_and_touch_return (x : Z) (st : state) :
  TestLib_perr x st
  = (Return tt,
     State (mem st) (oracle st)
           (out st ++ [Printf Stdout "Got error code %u.\n" [PUInt x]]) (junk st)) /\
  TestLib_touch x st = (Return tt, st).
Proof. split; reflexivity. Qed.

(** * Further properties *)

(** X1. [print_buf] never frees its hex buffer: when it returns, the block
    it obtained from [malloc] is still live. *)
Theorem X1_print_buf_leaks buf size file line (bs : list byte) st :
  0 <= size <= 2 ^ 30 ->
  load_bytes (mem st) buf (Z.to_nat size) = Some bs ->
  hd true (oracle st) = true ->
  exists st' b l,
    print_buf buf size file line st = (Return tt, st') /\
    mem st !! b = None /\ mem st' !! b = Some l.
Proof.
  intros Hsz Hbs Ho.
  destruct (print_buf_cases buf size file line bs st (proj1 Hsz) Hbs)
    as [(_ & _ & Hrun)|[Hn _]]; [|exfalso; apply Hn; split; [lia | exact Ho]].
  eexists. exists (fresh (dom (mem st))). eexists.
  split; [exact Hrun|]. split; [apply fresh_block_None|].
  cbn [mem]. apply lookup_insert_eq.
Qed.

(** X1, on a two-byte buffer. *)
Lemma X1_witness :
  exists st' b l,
    print_buf (Ptr 5 0) 2 "f.c" 7 demo_state = (Return tt, st') /\
    demo_mem !! b = None /\ mem st' !! b = Some l.
Proof.
  exact (X1_print_buf_leaks (Ptr 5 0) 2 "f.c"%string 7 [x01; xab] demo_state
           ltac:(lia) eq_refl eq_refl).
Defined.

(** ** A negative size *)

(** [malloc] returns [NULL] or the start of a block. *)
Lemma wp_malloc_shape n (Q : ptr -> state -> Prop) X U st :
  (forall p s', (p = Null \/ exists b, p = Ptr b 0) -> Q p s') ->
  wp (malloc n) Q X U st.
Proof. intros HQ. apply wp_malloc; intros _; apply HQ; eauto. Qed.

Lemma store_before_start (m : memory) p e v :
  (p = Null \/ exists b, p = Ptr b 0) -> e < 0 -> store m (p +p e) v = None.
Proof.
  intros [->|[b ->]] He; [reflexivity|].
  cbn [ptr_add]. unfold store. rewrite decide_False by lia. reflexivity.
Qed.

Lemma compare_and_print_negative txt reference output size st :
  size < 0 ->
  wp (TestLib_compare_and_print txt reference output size)
     (fun _ _ => False) (fun _ _ => False) (fun _ => True) st.
Proof.
  intros Hneg. unfold TestLib_compare_and_print.
  do 4 fault_step.
  apply wp_bind, wp_malloc_shape. intros str s1 Hstr.
  do 4 fault_step.
  apply wp_bind, wp_malloc_shape. intros str_ref s2 _.
  replace (Z.to_nat size) with 0%nat by lia. cbn [for_int].
  do 2 fault_step. do 3 fault_step.
  apply wp_store_char; [|intros _; exact I].
  intros m' H. rewrite store_before_start in H by (auto; lia). discriminate.
Qed.

(** X3. A negative [size] is never a no-op: the loops are skipped, but the
    store of the terminating NUL at index [2 * size] lands before the start
    of the buffer (or [2 * size] overflows), so the call faults; it neither
    reports success nor a mismatch. *)
Theorem X3_compare_negative_size_faults txt reference output size st :
  size < 0 ->
  (TestLib_compare_and_print txt reference output size st).1 = Undefined.
Proof.
  intros Hneg.
  pose proof (compare_and_print_negative txt reference output size st Hneg) as H.
  apply wp_outcome in H as [(a & _ & [])|[(code & _ & [])|[-> _]]]. reflexivity.
Qed.

(** X3, with size [-1]. *)
Lemma X3_witness :
  (TestLib_compare_and_print "t" (Ptr 5 0) (Ptr 6 0) (-1) demo_state).1 = Undefined.
Proof.
  exact (X3_compare_negative_size_faults "t"%string (Ptr 5 0) (Ptr 6 0) (-1)
           demo_state ltac:(lia)).
Defined.

(** ** Empty buffers *)

(** X4. With [size = 0] the buffer pointers are never dereferenced: whatever
    they are ([NULL] included), [TestLib_compare_and_print] prints two empty
    renderings and the success line and returns with memory as it was, and
    [print_buf] prints an empty rendering, provided the allocations are
    granted. *)
Theorem X4_empty_buffers_never_dereferenced txt reference output buf file line st :
  (hd true (oracle st) = true -> hd true (tail (oracle st)) = true ->
   TestLib_compare_and_print txt reference output 0 st
   = (Return tt,
      State (mem st) (tail (tail (oracle st)))
        (out st ++
           [Printf Stdout "[test] expected output %s is %s\n" [PStr txt; PStr ""];
            Printf Stdout "[test] computed output %s is %s\n" [PStr txt; PStr ""];
            Printf Stdout "[test] %s is a success\n" [PStr txt]]) (junk st))) /\
  (hd true (oracle st) = true ->
   exists st',
     print_buf buf 0 file line st = (Return tt, st') /\
     out st' = out st ++
       [Printf Stdout "%s:%d: %s\n" [PStr file; PInt line; PStr ""]]).
Proof.
  split.
  - intros Ho1 Ho2.
    destruct (compare_and_print_run txt reference output 0 [] [] st
                ltac:(lia) eq_refl eq_refl Ho1 Ho2)
      as [[_ Hrun]|(i & st' & [(x & y & Hx & _) _] & _)]; [exact Hrun|].
    destruct i; discriminate.
  - intros Ho.
    destruct (print_buf_cases buf 0 file line [] st ltac:(lia) eq_refl)
      as [(_ & _ & Hrun)|[Hn _]]; [|exfalso; apply Hn; split; [lia | exact Ho]].
    eexists. split; [exact Hrun | reflexivity].
Qed.

(** X4, with [NULL] for every buffer. *)
Lemma X4_witness :
  (TestLib_compare_and_print "t" Null Null 0 demo_state).1 = Return tt /\
  (print_buf Null 0 "f.c" 7 demo_state).1 = Return tt.
Proof.
  pose proof (X4_empty_buffers_never_dereferenced "t"%string Null Null Null
                "f.c"%string 7 demo_state) as [H1 H2].
  split.
  - rewrite (H1 eq_refl eq_refl). reflexivity.
  - destruct (H2 eq_refl) as (st' & -> & _). reflexivity.
Defined.

(** ** The rendering determines the bytes *)

Lemma byte_to_N_inj v w : Byte.to_N v = Byte.to_N w -> v = w.
Proof.
  intros H. pose proof (Byte.of_to_N v) as Hv. rewrite H, Byte.of_to_N in Hv.
  congruence.
Qed.

Lemma fmt_02x_inj v w : fmt_02x v = fmt_02x w -> v = w.
Proof.
  intros H.
  destruct (fmt_02x_decode v) as (h & l & Hd & Hv).
  destruct (fmt_02x_decode w) as (h' & l' & Hd' & Hw).
  rewrite H, Hd' in Hd. injection Hd as <- <-.
  apply byte_to_N_inj. congruence.
Qed.

Lemma hexs_inj : forall a b : list byte, hexs a = hexs b -> a = b.
Proof.
  induction a as [|v a IH]; intros [|w b] H; try reflexivity; try discriminate.
  change (fmt_02x v ++ hexs a = fmt_02x w ++ hexs b) in H.
  unfold fmt_02x in H. cbn [app] in H. injection H as H1 H2 H3.
  f_equal; [|apply IH, H3].
  apply fmt_02x_inj. unfold fmt_02x. congruence.
Qed.

Lemma hex_string_inj (a b : list byte) :
  string_of_list_byte (hexs a) = string_of_list_byte (hexs b) -> a = b.
Proof.
  intros H. apply hexs_inj.
  rewrite <- (list_byte_of_string_of_list_byte (hexs a)), H.
  apply list_byte_of_string_of_list_byte.
Qed.

(** X5. The line [print_buf] prints identifies the bytes of the buffer: two
    runs that return having printed the same hex string were given buffers
    with the same content (and so of the same size). *)
Theorem X5_print_buf_rendering_injective
    buf1 size1 file1 line1 (bs1 : list byte) st1 st1'
    buf2 size2 file2 line2 (bs2 : list byte) st2 st2' (s : string) :
  0 <= size1 -> 0 <= size2 ->
  load_bytes (mem st1) buf1 (Z.to_nat size1) = Some bs1 ->
  load_bytes (mem st2) buf2 (Z.to_nat size2) = Some bs2 ->
  print_buf buf1 size1 file1 line1 st1 = (Return tt, st1') ->
  print_buf buf2 size2 file2 line2 st2 = (Return tt, st2') ->
  last (out st1')
  = Some (Printf Stdout "%s:%d: %s\n" [PStr file1; PInt line1; PStr s]) ->
  last (out st2')
  = Some (Printf Stdout "%s:%d: %s\n" [PStr file2; PInt line2; PStr s]) ->
  bs1 = bs2.
Proof.
  intros Hs1 Hs2 Hb1 Hb2 R1 R2 L1 L2.
  destruct (print_buf_cases buf1 size1 file1 line1 bs1 st1 Hs1 Hb1)
    as [(_ & _ & E1)|[_ E1]]; rewrite R1 in E1; [|discriminate].
  destruct (print_buf_cases buf2 size2 file2 line2 bs2 st2 Hs2 Hb2)
    as [(_ & _ & E2)|[_ E2]]; rewrite R2 in E2; [|discriminate].
  injection E1 as ->. injection E2 as ->. cbn [out] in L1, L2.
  rewrite last_snoc in L1, L2. unfold print_buf_event in L1, L2.
  injection L1 as <-. injection L2 as E. symmetry in E.
  exact (hex_string_inj _ _ E).
Qed.

(** X5, on two equal two-byte buffers. *)
Lemma X5_witness : [x01; xab] = [x01; xab].
Proof.
  exact (X5_print_buf_rendering_injective
           (Ptr 5 0) 2 "f.c"%string 7 [x01; xab] demo_state _
           (Ptr 6 0) 2 "g.c"%string 9 [x01; xab] demo_state _ "01ab"%string
           ltac:(lia) ltac:(lia) eq_refl eq_refl eq_refl eq_refl eq_refl eq_refl).
Defined.

(** X6. What [TestLib_compare_and_print] prints agrees with its verdict: the
    string on the expected line equals the string on the computed line
    exactly when the call returns with success. *)
Theorem X6_same_rendering_iff_success
    txt reference output size (ref outp : list byte) st :
  0 <= size < 2 ^ 30 ->
  load_bytes (mem st) reference (Z.to_nat size) = Some ref ->
  load_bytes (mem st) output (Z.to_nat size) = Some outp ->
  hd true (oracle st) = true ->
  hd true (tail (oracle st)) = true ->
  exists s_ref s_out verdict,
    out (TestLib_compare_and_print txt reference output size st).2
    = out st ++
      [Printf Stdout "[test] expected output %s is %s\n" [PStr txt; PStr s_ref];
       Printf Stdout "[test] computed output %s is %s\n" [PStr txt; PStr s_out];
       verdict] /\
    (s_ref = s_out <->
     (TestLib_compare_and_print txt reference output size st).1 = Return tt).
Proof.
  intros Hsz Href Hout Ho1 Ho2.
  exists (string_of_list_byte (hexs ref)), (string_of_list_byte (hexs outp)).
  destruct (compare_and_print_run txt _ _ _ _ _ _ Hsz Href Hout Ho1 Ho2)
    as [[Heq Hrun]|(i & st' & Hi & Hrun & _ & Hout')]; rewrite Hrun; cbn [fst snd out].
  - eexists. split; [reflexivity|]. subst outp. split; reflexivity.
  - eexists. split; [exact Hout'|]. split; [|discriminate].
    intros E. exfalso. apply (first_diff_differ _ _ _ Hi).
    symmetry. exact (hex_string_inj _ _ E).
Qed.

(** X6, on buffers that differ. *)
Lemma X6_witness :
  exists s_ref s_out verdict,
    out (TestLib_compare_and_print "t" (Ptr 5 0) (Ptr 7 0) 2 demo_state).2
    = [Printf Stdout "[test] expected output %s is %s\n" [PStr "t"; PStr s_ref];
       Printf Stdout "[test] computed output %s is %s\n" [PStr "t"; PStr s_out];
       verdict] /\
    (s_ref = s_out <->
     (TestLib_compare_and_print "t" (Ptr 5 0) (Ptr 7 0) 2 demo_state).1 = Return tt).
Proof.
  exact (X6_same_rendering_iff_success "t"%string (Ptr 5 0) (Ptr 7 0) 2
           [x01; xab] [x01; xac] demo_state
           ltac:(lia) eq_refl eq_refl eq_refl eq_refl).
Defined.

(** ** Swapping the two buffers *)

Lemma first_diff_sym a b i : first_diff a b i -> first_diff b a i.
Proof.
  intros [(x & y & Hx & Hy & Hne) Ht]. split; [|auto].
  exists y, x. auto.
Qed.

Lemma last_three {A} (l : list A) a b c : last (l ++ [a; b; c]) = Some c.
Proof.
  change [a; b; c] with ([a; b] ++ [c]). rewrite app_assoc. apply last_snoc.
Qed.

(** Outside the sizes and allocator answers it is built for, the call
    faults. *)
Lemma compare_and_print_unfit txt reference output size st :
  ~ (size < 2 ^ 30 /\ hd true (oracle st) = true /\
     hd true (tail (oracle st)) = true) ->
  (TestLib_compare_and_print txt reference output size st).1 = Undefined.
Proof.
  intros Hn.
  destruct (decide (size < 2 ^ 30)) as [Hlt|Hge];
    [|apply compare_and_print_overflow; lia].
  assert (Ho : hd true (oracle st) = false \/ hd true (tail (oracle st)) = false).
  { destruct (hd true (oracle st)); [|auto].
    destruct (hd true (tail (oracle st))); [|auto]. exfalso. apply Hn. auto. }
  pose proof (compare_and_print_oom txt reference output size st Ho) as H.
  apply wp_outcome in H as [(a & _ & [])|[(code & _ & [])|[-> _]]]. reflexivity.
Qed.

(** X7. The verdict does not depend on which buffer is called the
    reference: with the two pointers swapped the call ends the same way
    (return, exit with the same code, or fault) and, when it prints a
    verdict line, prints the same one, with the same byte index. *)
Theorem X7_compare_symmetric txt p q size (bp bq : list byte) st :
  0 <= size ->
  load_bytes (mem st) p (Z.to_nat size) = Some bp ->
  load_bytes (mem st) q (Z.to_nat size) = Some bq ->
  (TestLib_compare_and_print txt p q size st).1
  = (TestLib_compare_and_print txt q p size st).1 /\
  ((TestLib_compare_and_print txt p q size st).1 <> Undefined ->
   last (out (TestLib_compare_and_print txt p q size st).2)
   = last (out (TestLib_compare_and_print txt q p size st).2)).
Proof.
  intros Hsz Hp Hq.
  destruct (decide (size < 2 ^ 30 /\ hd true (oracle st) = true /\
                    hd true (tail (oracle st)) = true)) as [(Hlt & Ho1 & Ho2)|Hn].
  - destruct (compare_and_print_run txt p q size bp bq st (conj Hsz Hlt) Hp Hq Ho1 Ho2)
      as [[Heq R1]|(i & s1 & Hi & R1 & _ & O1)];
    destruct (compare_and_print_run txt q p size bq bp st (conj Hsz Hlt) Hq Hp Ho1 Ho2)
      as [[Heq' R2]|(j & s2 & Hj & R2 & _ & O2)].
    + rewrite R1, R2. cbn [fst snd out]. split; [reflexivity|].
      intros _. rewrite !last_three. reflexivity.
    + exfalso. exact (first_diff_differ _ _ _ Hj (eq_sym Heq)).
    + exfalso. exact (first_diff_differ _ _ _ Hi (eq_sym Heq')).
    + rewrite R1, R2. cbn [fst snd]. split; [reflexivity|].
      intros _. rewrite O1, O2, !last_three.
      rewrite (first_diff_unique _ _ _ _ Hi (first_diff_sym _ _ _ Hj)).
      reflexivity.
  - rewrite !(compare_and_print_unfit _ _ _ _ _ Hn).
    split; [reflexivity | intros H; contradiction].
Qed.

(** X7, on buffers that differ in byte 1. *)
Lemma X7_witness :
  (TestLib_compare_and_print "t" (Ptr 5 0) (Ptr 7 0) 2 demo_state).1
  = (TestLib_compare_and_print "t" (Ptr 7 0) (Ptr 5 0) 2 demo_state).1.
Proof.
  exact (proj1 (X7_compare_symmetric "t"%string (Ptr 5 0) (Ptr 7 0) 2
                  [x01; xab] [x01; xac] demo_state ltac:(lia) eq_refl eq_refl)).
Defined.

(** ** Exit codes *)

(** Steps of a proof about exit codes alone: what a step returns or where it
    faults does not matter. *)
Ltac code_step :=
  lazymatch goal with
  | |- True => exact I
  | |- wp (bind _ _) _ _ _ _ => apply wp_bind
  | |- wp (ret _) _ _ _ _ => exact I
  | |- wp (exit _) _ _ _ _ => apply wp_exit; reflexivity
  | |- wp (int_val _) _ _ _ _ => apply wp_int_val; [intros _ | intros _; exact I]
  | |- wp (load_u8 _) _ _ _ _ => apply wp_load_u8; [intros ? ? _ _ _ | exact I]
  | |- wp (read_string _) _ _ _ _ =>
      apply wp_read_string; [intros ? _ | intros _; exact I]
  | |- wp (sprintf_02x _ _) _ _ _ _ => unfold sprintf_02x
  | |- wp (store_char _ _) _ _ _ _ =>
      apply wp_store_char; [intros ? _ | intros _; exact I]
  | |- wp (malloc _) _ _ _ _ => apply wp_malloc_del; intros ? ? _
  | |- wp (free _) _ _ _ _ => apply wp_free_del; [|exact I]
  | |- wp (printf_to _ _ _) _ _ _ _ => apply wp_printf_to
  | |- wp (printf _ _) _ _ _ _ => apply wp_printf_to
  | |- wp (fprintf _ _ _) _ _ _ _ => apply wp_printf_to
  | |- wp (for_int _ _ _) _ _ _ _ =>
      apply (wp_for_int (fun _ _ => True));
      [exact I | intros ? ? _ _ | intros; exact I | intros ? _]
  | |- wp (if ?b then _ else _) _ _ _ _ => destruct b
  end.

Lemma print_buf_no_exit buf size file line st :
  wp (print_buf buf size file line)
     (fun _ _ => True) (fun _ _ => False) (fun _ => True) st.
Proof. unfold print_buf. repeat code_step. Qed.

Lemma compare_and_print_exit_code txt reference output size st :
  wp (TestLib_compare_and_print txt reference output size)
     (fun _ _ => True) (fun code _ => code = EXIT_FAILURE) (fun _ => True) st.
Proof. unfold TestLib_compare_and_print. repeat code_step. Qed.

(** X8. The exit codes of the library, on every input and in every state:
    [print_buf] never exits; [TestLib_compare_and_print] exits with
    [EXIT_FAILURE] or not at all; the checks exit with 253 or not at all;
    [TestLib_unsafe_malloc] exits with [EXIT_FAILURE] or not at all; the
    touch, error-code and timing reports never exit. *)
Theorem X8_exit_codes :
  (forall buf size file line st code,
     (print_buf buf size file line st).1 <> Exit code) /\
  (forall txt reference output size st code,
     (TestLib_compare_and_print txt reference output size st).1 = Exit code ->
     code = EXIT_FAILURE) /\
  (forall w x y st code,
     ((TestLib_check w x y st).1 = Exit code -> code = 253) /\
     ((TestLib_checku w x y st).1 = Exit code -> code = 253)) /\
  (forall size st code,
     (TestLib_unsafe_malloc size st).1 = Exit code -> code = EXIT_FAILURE) /\
  (forall x a b c st code,
     (TestLib_touch x st).1 <> Exit code /\
     (TestLib_perr x st).1 <> Exit code /\
     (TestLib_print_clock_diff a b st).1 <> Exit code /\
     (TestLib_print_cycles_per_round a b c st).1 <> Exit code).
Proof.
  split; [|split; [|split; [|split]]].
  - intros buf size file line st code E.
    pose proof (print_buf_no_exit buf size file line st) as H.
    unfold wp in H. destruct (print_buf buf size file line st) as [[a|c|] s];
      cbn in E; try discriminate. exact H.
  - intros txt reference output size st code E.
    pose proof (compare_and_print_exit_code txt reference output size st) as H.
    unfold wp in H.
    destruct (TestLib_compare_and_print txt reference output size st) as [[a|c|] s];
      cbn in E; try discriminate. congruence.
  - intros w x y st code. unfold TestLib_check, TestLib_checku.
    destruct (negb (x =? y)); cbn; split; intros E; congruence.
  - intros size st code E.
    destruct (unsafe_malloc_run size st) as [(b & _ & _ & R)|[_ R]];
      rewrite R in E; cbn in E; congruence.
  - intros x a b c st code. repeat split; discriminate.
Qed.

(** X8, on buffers that differ: the exit code of the comparison. *)
Lemma X8_witness : 1 = EXIT_FAILURE.
Proof.
  exact (proj1 (proj2 X8_exit_codes) "t"%string (Ptr 5 0) (Ptr 7 0) 2
           demo_state 1 eq_refl).
Defined.

(** ** The block [TestLib_unsafe_malloc] returns *)

(** X9. When [TestLib_unsafe_malloc] returns, nothing is printed and every
    byte readable before is unchanged; the block returned is new (no byte of
    it was readable before) and indeterminate (no byte of it holds a
    determined value); exactly the offsets [0 <= k < size] can be written; and
    [free] on the pointer gives back the memory as it was. *)
Theorem X9_unsafe_malloc_block size st p st' :
  TestLib_unsafe_malloc size st = (Return p, st') ->
  out st' = out st /\
  (forall q v, load (mem st) q = Some v -> load (mem st') q = Some v) /\
  (forall k, load (mem st) (p +p k) = None /\ load (mem st') (p +p k) = None) /\
  (forall k v, is_Some (store (mem st') (p +p k) v) <-> 0 <= k < size) /\
  free p st' = (Return tt, State (mem st) (oracle st') (out st') (junk st')).
Proof.
  intros E.
  destruct (unsafe_malloc_run size st) as [(b & _ & Hb & R)|[_ R]];
    rewrite R in E; [|discriminate].
  injection E as <- <-. cbn [mem out oracle].
  split; [reflexivity|]. split; [|split; [|split]].
  - intros q v. apply load_mono, insert_subseteq, Hb.
  - intros k. cbn [ptr_add]. unfold load. rewrite Hb, lookup_insert_eq.
    split; [destruct (decide (0 <= 0 + k)); reflexivity|].
    destruct (decide (0 <= 0 + k)); [|reflexivity].
    destruct (replicate (Z.to_nat size) None !! Z.to_nat (0 + k)) as [c|] eqn:Ec;
      [|reflexivity].
    apply lookup_replicate in Ec as [-> _]. reflexivity.
  - intros k v. cbn [ptr_add]. unfold store. rewrite lookup_insert_eq.
    rewrite length_replicate.
    destruct (decide (0 <= 0 + k)) as [H0|H0].
    + destruct (decide (Z.to_nat (0 + k) < Z.to_nat size)%nat) as [H1|H1].
      * split; [lia | eauto].
      * split; [intros [? ?]; discriminate | lia].
    + split; [intros [? ?]; discriminate | lia].
  - unfold free. rewrite decide_True by reflexivity. cbn [mem].
    rewrite lookup_insert_eq. unfold set_mem. cbn [mem oracle out junk].
    rewrite delete_insert_id by exact Hb. reflexivity.
Qed.

(** X9, for a block of four bytes. *)
Lemma X9_witness :
  is_Some (store (mem (TestLib_unsafe_malloc 4 demo_state).2) (Ptr 8 3) x00) /\
  ~ is_Some (store (mem (TestLib_unsafe_malloc 4 demo_state).2) (Ptr 8 4) x00).
Proof.
  pose proof (X9_unsafe_malloc_block 4 demo_state (Ptr 8 0) _ eq_refl)
    as (_ & _ & _ & Hw & _).
  split.
  - apply (Hw 3 x00). lia.
  - intros H. apply (Hw 4 x00) in H. lia.
Defined.

(** ** A [print_buf] before a comparison *)

Lemma bind_Return {A B} (c : M A) (k : A -> M B) st a st' :
  c st = (Return a, st') -> bind c k st = k a st'.
Proof. intros E. unfold bind. rewrite E. reflexivity. Qed.

(** X10. Printing a buffer does not disturb a later comparison: after a
    [print_buf] that returns, [TestLib_compare_and_print] on buffers that
    were readable before reports success exactly when they hold the same
    bytes and exits with [EXIT_FAILURE] otherwise, its three lines following
    the line of [print_buf]. *)
Theorem X10_print_then_compare
    buf n file line (bs : list byte) txt reference output size
    (ref outp : list byte) st :
  0 <= n <= 2 ^ 30 ->
  load_bytes (mem st) buf (Z.to_nat n) = Some bs ->
  0 <= size < 2 ^ 30 ->
  load_bytes (mem st) reference (Z.to_nat size) = Some ref ->
  load_bytes (mem st) output (Z.to_nat size) = Some outp ->
  hd true (oracle st) = true ->
  hd true (tail (oracle st)) = true ->
  hd true (tail (tail (oracle st))) = true ->
  let run :=
    (print_buf buf n file line ;;
     TestLib_compare_and_print txt reference output size) st in
  (outp = ref -> run.1 = Return tt) /\
  (outp <> ref -> run.1 = Exit EXIT_FAILURE) /\
  exists verdict,
    out run.2
    = out st ++ [print_buf_event file line bs; expected_event txt ref;
                 computed_event txt outp; verdict].
Proof.
  intros Hn Hbs Hsz Href Hout Ho1 Ho2 Ho3 run. subst run.
  destruct (print_buf_cases buf n file line bs st (proj1 Hn) Hbs)
    as [(_ & _ & R1)|[Hno _]]; [|exfalso; apply Hno; split; [lia | exact Ho1]].
  rewrite (bind_Return _ _ _ _ _ R1).
  set (st1 := State _ _ _ _) in *.
  assert (Hsub : mem st ⊆ mem st1) by apply insert_fresh_subseteq.
  destruct (compare_and_print_run txt reference output size ref outp st1 Hsz
              (load_bytes_mono _ _ _ _ _ Hsub Href)
              (load_bytes_mono _ _ _ _ _ Hsub Hout) Ho2 Ho3)
    as [[Heq R2]|(i & st2 & Hi & R2 & _ & O2)]; rewrite R2; cbn [fst snd out].
  - split; [reflexivity|]. split; [intros Hne; contradiction|].
    eexists. subst st1. cbn [out]. rewrite <- app_assoc. reflexivity.
  - split; [intros Heq; exfalso; exact (first_diff_differ _ _ _ Hi Heq)|].
    split; [reflexivity|].
    eexists. rewrite O2. subst st1. cbn [out]. rewrite <- app_assoc. reflexivity.
Qed.

(** X10, printing one buffer and then comparing it with an equal one. *)
Lemma X10_witness :
  ((print_buf (Ptr 5 0) 2 "f.c" 7 ;;
    TestLib_compare_and_print "t" (Ptr 5 0) (Ptr 6 0) 2) demo_state).1
  = Return tt.
Proof.
  exact (proj1 (X10_print_then_compare (Ptr 5 0) 2 "f.c"%string 7 [x01; xab]
                  "t"%string (Ptr 5 0) (Ptr 6 0) 2 [x01; xab] [x01; xab]
                  demo_state ltac:(lia) eq_refl ltac:(lia) eq_refl eq_refl
                  eq_refl eq_refl eq_refl) eq_refl).
Defined.

(** ** Sizes beyond the [int] arithmetic, and the full table of verdicts *)

(** X12. Sizes the [int] index arithmetic cannot carry always fault,
    whatever the buffers and the allocator: [TestLib_compare_and_print] from
    [size = 2^30] on (where [2 * size] overflows), [print_buf] above
    [2^30] (where [2 * i] overflows inside its loop). *)
Theorem X12_oversize_faults :
  (forall buf size file line st,
     2 ^ 30 < size -> (print_buf buf size file line st).1 = Undefined) /\
  (forall txt reference output size st,
     2 ^ 30 <= size ->
     (TestLib_compare_and_print txt reference output size st).1 = Undefined).
Proof.
  split.
  - intros buf size file line st Hsz.
    pose proof (print_buf_overflow buf size file line st Hsz) as H.
    apply wp_outcome in H as [(a & _ & [])|[(code & _ & [])|[-> _]]]. reflexivity.
  - intros txt reference output size st Hsz.
    apply compare_and_print_overflow, Hsz.
Qed.

(** X12, just past each bound. *)
Lemma X12_witness :
  (print_buf (Ptr 5 0) (2 ^ 30 + 1) "f.c" 7 demo_state).1 = Undefined /\
  (TestLib_compare_and_print "t" (Ptr 5 0) (Ptr 6 0) (2 ^ 30) demo_state).1
  = Undefined.
Proof.
  split.
  - exact (proj1 X12_oversize_faults (Ptr 5 0) (2 ^ 30 + 1) "f.c"%string 7
             demo_state ltac:(lia)).
  - exact (proj2 X12_oversize_faults "t"%string (Ptr 5 0) (Ptr 6 0) (2 ^ 30)
             demo_state ltac:(lia)).
Defined.

(** X13. The full table for [TestLib_compare_and_print] on readable buffers
    of [size >= 0] bytes. Call the run fit when [size < 2^30] and both
    allocations are granted. The call returns exactly when the run is fit
    and the buffers are equal, exits with [EXIT_FAILURE] exactly when it is
    fit and they differ, and faults exactly when it is not fit. *)
Theorem X13_compare_verdict_table
    txt reference output size (ref outp : list byte) st :
  0 <= size ->
  load_bytes (mem st) reference (Z.to_nat size) = Some ref ->
  load_bytes (mem st) output (Z.to_nat size) = Some outp ->
  let fit := size < 2 ^ 30 /\ hd true (oracle st) = true /\
             hd true (tail (oracle st)) = true in
  let r := (TestLib_compare_and_print txt reference output size st).1 in
  (r = Return tt <-> fit /\ outp = ref) /\
  (r = Exit EXIT_FAILURE <-> fit /\ outp <> ref) /\
  (r = Undefined <-> ~ fit).
Proof.
  intros Hsz Href Hout fit r. subst r.
  destruct (decide fit) as [Hfit|Hn].
  - pose proof Hfit as (Hlt & Ho1 & Ho2).
    destruct (compare_and_print_run txt _ _ _ _ _ _ (conj Hsz Hlt) Href Hout Ho1 Ho2)
      as [[Heq R]|(i & st' & Hi & R & _)]; rewrite R; cbn [fst].
    + repeat split; try tauto; try discriminate; intros; tauto || congruence.
    + pose proof (first_diff_differ _ _ _ Hi) as Hne.
      repeat split; try tauto; try discriminate; intros; tauto || congruence.
  - rewrite (compare_and_print_unfit _ _ _ _ _ Hn).
    repeat split; try tauto; try discriminate; intros; tauto || congruence.
Qed.

(** X13, on equal buffers with a willing allocator. *)
Lemma X13_witness :
  (TestLib_compare_and_print "t" (Ptr 5 0) (Ptr 6 0) 2 demo_state).1 = Return tt.
Proof.
  apply (X13_compare_verdict_table "t"%string (Ptr 5 0) (Ptr 6 0) 2
           [x01; xab] [x01; xab] demo_state ltac:(lia) eq_refl eq_refl).
  repeat split; lia || reflexivity.
Defined.

(** ** Buffers that are allocated but not written *)

Lemma cell_at_mono (m m' : memory) p c :
  m ⊆ m' -> cell_at m p = Some c -> cell_at m' p = Some c.
Proof.
  intros Hsub. destruct p as [|b off]; [discriminate|]. unfold cell_at.
  case_decide; [|discriminate].
  destruct (m !! b) as [l|] eqn:E; [|discriminate].
  rewrite (lookup_weaken _ _ _ _ E Hsub). auto.
Qed.

(** A read inside a live block returns: the byte of the cell when there is
    one, some byte otherwise. *)
Lemma wp_load_u8_cell p c (Q : byte -> state -> Prop) X U st :
  cell_at (mem st) p = Some c ->
  (forall v jk, (forall v0, c = Some v0 -> v = v0) ->
                Q v (State (mem st) (oracle st) (out st) jk)) ->
  wp (load_u8 p) Q X U st.
Proof.
  intros E HQ. unfold wp, load_u8. rewrite E. destruct c as [v|].
  - destruct st as [m o ou jk]. apply (HQ v jk). intros v0 [= ->]. reflexivity.
  - apply HQ. intros v0. discriminate.
Qed.

Lemma print_buf_allocated_wp buf size file line st :
  0 <= size <= 2 ^ 30 ->
  allocated (mem st) buf size ->
  hd true (oracle st) = true ->
  wp (print_buf buf size file line)
     (fun _ st' =>
        exists bs,
          out st' = out st ++ [print_buf_event file line bs] /\
          length bs = Z.to_nat size /\
          (forall (k : nat) v,
             (k < Z.to_nat size)%nat ->
             load (mem st) (buf +p Z.of_nat k) = Some v -> bs !! k = Some v))
     (fun _ _ => False) (fun _ => False) st.
Proof.
  intros Hsz Hbuf Ho. unfold print_buf.
  destruct st as [m0 o out0 jk0]. cbn [mem oracle out junk] in *.
  remember (fresh (dom m0)) as b eqn:Eb.
  assert (Hb : m0 !! b = None) by (subst b; apply fresh_block_None).
  apply wp_bind, (wp_malloc_ok _ b); [exact Ho | exact Eb |]. state_simpl.
  apply wp_bind.
  apply (wp_for_int (fun j s =>
    exists bsj tl,
      mem s = <[b := map Some (hexs bsj) ++ tl]> m0 /\ out s = out0 /\
      length bsj = Z.to_nat j /\
      length tl = (2 * (Z.to_nat size - Z.to_nat j) + 1)%nat /\
      (forall (k : nat) v,
         (k < Z.to_nat j)%nat ->
         load m0 (buf +p Z.of_nat k) = Some v -> bsj !! k = Some v))).
  - exists [], (replicate (Z.to_nat (size_t (2 * size + 1))) None).
    cbn [mem out]. split; [reflexivity|]. split; [reflexivity|].
    split; [reflexivity|]. split.
    + rewrite length_replicate, size_t_small by lia. lia.
    + intros k v Hk. lia.
  - intros j s Hj (bsj & tl & Hm & Hout & Hlen & Htl & Hag).
    apply wp_bind, wp_int_val_ok; [unfold INT_MIN, INT_MAX; lia|].
    destruct (Hbuf j ltac:(lia)) as [c Hc].
    apply wp_bind, (wp_load_u8_cell _ c).
    { rewrite Hm. eapply cell_at_mono; [apply insert_subseteq, Hb | exact Hc]. }
    intros v jk Hv.
    destruct tl as [|c0 [|c1 [|c2 tl]]]; cbn [length] in Htl; try lia.
    eapply wp_sprintf_02x_ok.
    + state_simpl. rewrite Hm, lookup_insert_eq. reflexivity.
    + rewrite length_map, hexs_length. lia.
    + state_simpl. rewrite Hm, insert_insert_eq.
      exists (bsj ++ [v]), (Some x00 :: tl).
      split; [rewrite hexs_snoc, map_app, <- app_assoc; reflexivity|].
      split; [exact Hout|].
      split; [rewrite length_app; cbn [length]; lia|].
      split; [cbn [length]; lia|].
      intros k v0 Hk Hl.
      destruct (decide (k < Z.to_nat j)%nat) as [Hlt|Hge].
      * rewrite lookup_app_l by lia. apply Hag; assumption.
      * assert (k = Z.to_nat j) as -> by lia.
        rewrite Z2Nat.id in Hl by lia.
        apply load_cell_at in Hl. rewrite Hc in Hl. injection Hl as ->.
        rewrite (Hv v0 eq_refl).
        rewrite lookup_app_r by lia.
        replace (Z.to_nat j - length bsj)%nat with O by lia. reflexivity.
  - intros j s Hj _ Hr. unfold INT_MIN, INT_MAX in Hr. lia.
  - intros s (bs & tl & Hm & Hout & Hlen & Htl & Hag).
    rewrite Z.add_0_l, Nat2Z.id in *.
    destruct tl as [|c [|? ?]]; cbn [length] in Htl; try lia.
    apply wp_bind. eapply wp_store_char_ok.
    { rewrite Hm. cbn [ptr_add]. rewrite size_t_small by lia.
      replace (0 + 2 * size) with (Z.of_nat (length (map Some (hexs bs)))).
      - eapply store_at. rewrite lookup_insert_eq. reflexivity.
      - rewrite length_map, hexs_length. lia. }
    state_simpl. rewrite insert_insert_eq.
    apply wp_bind. eapply (wp_read_string_ok _ (string_of_list_byte (hexs bs))).
    { state_simpl. unfold load_string. rewrite decide_True by lia.
      rewrite lookup_insert_eq. change (Z.to_nat 0) with O. rewrite drop_0.
      rewrite cstr_terminated by apply hexs_nonzero. reflexivity. }
    apply wp_printf_to. state_simpl.
    exists bs. rewrite Hout. split; [reflexivity|]. split; [exact Hlen|].
    exact Hag.
Qed.

(** X14. [print_buf] needs its buffer allocated, not written: the read of
    a never-written byte yields some byte, and the run goes on. On [size]
    bytes of live storage it returns, having printed one line with the
    rendering of [size] bytes; these are the bytes of the buffer wherever
    the buffer holds one. *)
Theorem X14_print_buf_allocated_storage buf size file line st :
  0 <= size <= 2 ^ 30 ->
  allocated (mem st) buf size ->
  hd true (oracle st) = true ->
  exists st' bs,
    print_buf buf size file line st = (Return tt, st') /\
    out st' = out st ++ [print_buf_event file line bs] /\
    length bs = Z.to_nat size /\
    (forall (k : nat) v,
       (k < Z.to_nat size)%nat ->
       load (mem st) (buf +p Z.of_nat k) = Some v -> bs !! k = Some v).
Proof.
  intros Hsz Hbuf Ho.
  destruct (wp_outcome _ _ _ _ _ (print_buf_allocated_wp buf size file line st
                                    Hsz Hbuf Ho))
    as [([] & Hrun & bs & H)|[(code & _ & [])|[_ []]]].
  eexists. exists bs. split; [exact Hrun | exact H].
Qed.

(** X14, on a buffer whose first byte was never written. *)
Lemma X14_witness :
  (print_buf (Ptr 5 0) 2 "f.c" 7 raw_state).1 = Return tt /\
  load raw_mem (Ptr 5 0) = None /\
  out (print_buf (Ptr 5 0) 2 "f.c" 7 raw_state).2
  = [Printf Stdout "%s:%d: %s\n" [PStr "f.c"; PInt 7; PStr "ffab"]].
Proof.
  destruct (X14_print_buf_allocated_storage (Ptr 5 0) 2 "f.c"%string 7 raw_state)
    as (st' & bs & Hrun & _).
  - lia.
  - intros k Hk. assert (k = 0 \/ k = 1) as [-> | ->] by lia; vm_compute; eauto.
  - reflexivity.
  - split; [rewrite Hrun; reflexivity|]. split; vm_compute; reflexivity.
Defined.
